(** * talos-schematic-id-to-raw-schematic: the extraction pipeline of main.go

    A shallow embedding of the byte-offset adapter ([discarder.ReadAt]), the
    padding skipper ([eatPadding]), the compression sniffer
    ([decompressingReadCloser]), the member decoder
    ([parseRawFromExtensions]) and the two drivers ([extractRawSchematic] and
    the older, monolithic [run]) together with the properties the
    specification states about them.

    Conventions.
    - A Go [int64] is a [Z] and every [int64] operation of the source is
      followed by [wrap64].
    - A [*bufio.Reader] is the sequence of bytes it still has to deliver plus
      the error its source reports once they are delivered.
    - Go's [(value, error)] pairs become [result]; a run-time panic is the
      third constructor of [result].
    - The libraries the program imports (cpio, xz, zstd, yaml) are the fields
      of the class [Libs]. *)

From Stdlib Require Import String ZArith List Bool Lia Arith Wellfounded.
From Stdlib Require Import Strings.Byte.
From Stdlib Require Import DecimalString.
Import ListNotations.
Open Scope Z_scope.

(** ** Errors *)

(** The error values the program creates or tests for.  [ErrLib] stands for an
    error produced inside an imported library. *)
Inductive error : Type :=
| EOF                      (* io.EOF *)
| ErrUnexpectedEOF         (* io.ErrUnexpectedEOF *)
| ErrNegativeSeek          (* errors.New("negative seek on discarder not allowed") *)
| ErrNoLayers              (* errors.New("extensions.yaml has no layers") *)
| ErrReaderAtType          (* fmt.Errorf("unexpected ReaderAt type %T; want *io.SectionReader") *)
| ErrLib (msg : string).

(** [err.Error()] *)
Definition Error (e : error) : string :=
  match e with
  | EOF => "EOF"
  | ErrUnexpectedEOF => "unexpected EOF"
  | ErrNegativeSeek => "negative seek on discarder not allowed"
  | ErrNoLayers => "extensions.yaml has no layers"
  | ErrReaderAtType => "unexpected ReaderAt type; want *io.SectionReader"
  | ErrLib msg => msg
  end%string.

(** [errors.Is(err, io.EOF)]; none of the errors above wraps another one, so
    this is also [err == io.EOF] of the older [run]. *)
Definition is_EOF (e : error) : bool :=
  match e with EOF => true | _ => false end.

Inductive result (A : Type) : Type :=
| Ok (a : A)
| Err (e : error)
| Panic.
Arguments Ok {A} a.
Arguments Err {A} e.
Arguments Panic {A}.

(** ** int64 *)

Definition min_int64 : Z := - 2 ^ 63.
Definition max_int64 : Z := 2 ^ 63 - 1.

Definition wrap64 (z : Z) : Z := (z + 2 ^ 63) mod 2 ^ 64 - 2 ^ 63.

(** ** Sequential readers *)

(** The bytes a reader has not delivered yet, and the error of its source
    after the last byte ([None]: a clean end of input, io.EOF). *)
Record Reader : Type := mkReader {
  data : list byte;
  fail : option error
}.

(** The error a read at the end of the data gets. *)
Definition end_err (rd : Reader) : error :=
  match fail rd with
  | Some e => e
  | None => EOF
  end.

(** The reader after [k] of its bytes were consumed. *)
Definition advance (k : nat) (rd : Reader) : Reader :=
  mkReader (skipn k (data rd)) (fail rd).

(** [io.Copy(io.Discard, io.LimitReader(rd, n))]: reads and drops up to [n]
    bytes; the end of input is not an error for [io.Copy]. *)
Definition io_Copy_Discard_Limit (rd : Reader) (n : Z)
  : Z * option error * Reader :=
  if n <=? 0 then (0, None, rd)
  else if n <=? Z.of_nat (length (data rd)) then
    (n, None, advance (Z.to_nat n) rd)
  else
    (Z.of_nat (length (data rd)),
     (if is_EOF (end_err rd) then None else Some (end_err rd)),
     advance (length (data rd)) rd).

(** [io.ReadFull(rd, p)] with [len(p) = n]: the bytes put into [p] (their
    number is the [n] the call returns) and the error. *)
Definition io_ReadFull (rd : Reader) (n : nat)
  : list byte * option error * Reader :=
  if (n <=? length (data rd))%nat then
    (firstn n (data rd), None, advance n rd)
  else
    (data rd,
     Some (match data rd with
           | [] => end_err rd
           | _ :: _ => if is_EOF (end_err rd) then ErrUnexpectedEOF
                       else end_err rd
           end),
     advance (length (data rd)) rd).

(** [in.Peek(4)] of [*bufio.Reader]: consumes nothing. *)
Definition Peek (rd : Reader) (n : nat) : error + list byte :=
  if (n <=? length (data rd))%nat then inr (firstn n (data rd))
  else inl (end_err rd).

(** ** The byte-offset adapter *)

Record discarder : Type := mkDiscarder {
  r : Reader;
  pos : Z
}.

(** What [ReadAt] hands back: the bytes stored into [p] (the returned count
    is their number) and the error. *)
Definition read_result : Type := (list byte * option error)%type.

(** [func (r *discarder) ReadAt(p []byte, off int64) (int, error)] with
    [len(p) = n]. *)
Definition ReadAt (d : discarder) (n : nat) (off : Z)
  : read_result * discarder :=
  if wrap64 (off - pos d) <? 0 then
    (([], Some ErrNegativeSeek), d)
  else
    let skipped :=
      if off =? pos d then inr d
      else
        let '(i, err, rd) :=
          io_Copy_Discard_Limit (r d) (wrap64 (off - pos d)) in
        match err with
        | Some e => inl (([], Some e), mkDiscarder rd (pos d))
        | None =>
            if negb (i =? wrap64 (off - pos d))
            then inl (([], None), mkDiscarder rd (pos d))
            else inr (mkDiscarder rd (wrap64 (pos d + i)))
        end in
    match skipped with
    | inl out => out
    | inr d1 =>
        let '(got, err, rd) := io_ReadFull (r d1) n in
        match err with
        | Some e => ((got, Some e), mkDiscarder rd (pos d1))
        | None =>
            ((got, None),
             mkDiscarder rd (wrap64 (pos d1 + Z.of_nat (length got))))
        end
    end.

(** A fresh [&discarder{r: reader}]. *)
Definition new_discarder (rd : Reader) : discarder := mkDiscarder rd 0.

(** A sequence of [ReadAt] calls, each given as (offset, length). *)
Fixpoint ReadAt_all (d : discarder) (reqs : list (Z * nat))
  : list read_result * discarder :=
  match reqs with
  | [] => ([], d)
  | (off, n) :: rest =>
      let '(out, d1) := ReadAt d n off in
      let '(outs, d2) := ReadAt_all d1 rest in
      (out :: outs, d2)
  end.

(** The slice [off, off+n) of a byte sequence. *)
Definition slice (s : list byte) (off : Z) (n : nat) : list byte :=
  firstn n (skipn (Z.to_nat off) s).

(** ** Padding *)

(** [eatPadding]: [ReadByte] until a non-zero byte, which is put back with
    [UnreadByte]; a clean end of input is not an error. *)
Fixpoint eatPadding_bytes (bs : list byte) : list byte :=
  match bs with
  | [] => []
  | b :: rest => if Byte.eqb b x00 then eatPadding_bytes rest else bs
  end.

Definition eatPadding (rd : Reader) : option error * Reader :=
  let rest := eatPadding_bytes (data rd) in
  match rest with
  | [] => ((if is_EOF (end_err rd) then None else Some (end_err rd)),
           mkReader [] (fail rd))
  | _ :: _ => (None, mkReader rest (fail rd))
  end.

(** ** The configuration document *)

(** Modelled from the spec: the type [extensions.Config] of the imported
    Talos package is not part of the sources; section 6 of the specification
    gives its shape (a "layers" sequence whose elements carry a "metadata"
    mapping with an "extraInfo" string).  Every element of the sequence is a
    layer here: a document with a null entry among its layers, on which
    [last.Metadata] dereferences a nil pointer, lies outside this model, and
    nothing below says what the program does on one. *)
Record Metadata_t : Type := mkMetadata {
  ExtraInfo : string
}.

Record Layer : Type := mkLayer {
  Metadata : Metadata_t
}.

Record Config : Type := mkConfig {
  Layers : list Layer
}.

(** [l[i]] of a Go slice: [None] stands for the index-out-of-range panic. *)
Definition index {A : Type} (l : list A) (i : Z) : option A :=
  if (i <? 0) || (Z.of_nat (length l) <=? i) then None
  else nth_error l (Z.to_nat i).

(** ** Archive records and the imported libraries *)

(** The dynamic type behind a record's [io.ReaderAt]:
    [io.NewSectionReader(d, base, n)] over the discarder, or anything else. *)
Inductive io_ReaderAt : Type :=
| SectionReader (base n : Z)
| OtherReaderAt.

Record cpio_Record : Type := mkRecord {
  Name : string;
  ReaderAt : io_ReaderAt
}.

(** The imported packages, as far as the program calls them.
    [ReadRecord] works on the discarder it was created over; the two
    [NewReader]s turn a compressed reader into the reader of the decompressed
    bytes; [yaml_Decode] gets what reading the member's section delivered. *)
Class Libs : Type := {
  cpio_reader : Type;
  Newc_Reader : cpio_reader;
  ReadRecord : cpio_reader -> discarder ->
               (error + cpio_Record) * cpio_reader * discarder;
  xz_NewReader : Reader -> error + Reader;
  zstd_NewReader : Reader -> error + Reader;
  yaml_Decode : list byte -> option error -> error + Config
}.

(** ** What a run does besides returning *)

Inductive event : Type :=
| LogFound (name : string)      (* log.Printf("found record: %q", name) *)
| LogRaw (raw : string)         (* log.Printf("raw schematic:\n%s", raw) *)
| Opened (src : Reader)         (* a zstd decoder was created over src *)
| Closed (src : Reader).        (* Close() of the decoder created over src *)

Definition trace : Type := list event.

(** The [func()] values the sniffer returns. *)
Inductive closeFunc : Type :=
| nop                           (* func() {} *)
| decoder_Close (src : Reader). (* decoder.Close of the decoder over src *)

Definition call (c : closeFunc) (t : trace) : trace :=
  match c with
  | nop => t
  | decoder_Close src => t ++ [Closed src]
  end.

(** The deferred [for _, c := range closeFuncs { c() }]. *)
Definition run_closeFuncs (closeFuncs : list closeFunc) (t : trace) : trace :=
  fold_left (fun t0 c => call c t0) closeFuncs t.

(** ** The compression sniffer *)

Definition extensionsYAMLFileName : string := "extensions.yaml".

Definition xz_magic : list byte := [xfd; x37; x7a; x58].     (* 0xfd '7' 'z' 'X' *)
Definition zstd_magic : list byte := [x28; xb5; x2f; xfd].

Fixpoint bytes_Equal (a b : list byte) : bool :=
  match a, b with
  | [], [] => true
  | x :: a', y :: b' => Byte.eqb x y && bytes_Equal a' b'
  | _, _ => false
  end.

Inductive CompressionLayer : Type := NONE | XZ | ZSTD.

(** The [switch] of [decompressingReadCloser] on the peeked bytes. *)
Definition classify (magic : list byte) : CompressionLayer :=
  if bytes_Equal magic xz_magic then XZ
  else if bytes_Equal magic zstd_magic then ZSTD
  else NONE.

Section Pipeline.
Context {L : Libs}.

Definition decompressingReadCloser (in_ : Reader) (t : trace)
  : (error + Reader * closeFunc) * trace :=
  match Peek in_ 4 with
  | inl e => (inl e, t)
  | inr magic =>
      match classify magic with
      | XZ =>
          match xz_NewReader in_ with
          | inl e => (inl e, t)
          | inr reader => (inr (reader, nop), t)
          end
      | ZSTD =>
          match zstd_NewReader in_ with
          | inl e => (inl e, t)
          | inr decoder => (inr (decoder, decoder_Close in_), t ++ [Opened in_])
          end
      | NONE => (inr (in_, nop), t)
      end
  end.

(** ** The member decoder *)

(** Reading a section reader to its end through the discarder.  The decoder
    reads it in consecutive chunks; for a section that lies inside the
    stream, one [ReadAt] of the whole section delivers the same bytes and
    leaves the same state ([ReadAt_adjacent] below).  For a section that
    runs past the end of the stream this is the result of the single
    request. *)
Definition read_section (d : discarder) (base n : Z) : read_result :=
  fst (ReadAt d (Z.to_nat n) base).

Definition parseRawFromExtensions (readerAt : io_ReaderAt) (d : discarder)
  : result string :=
  match readerAt with
  | OtherReaderAt => Err ErrReaderAtType
  | SectionReader base n =>
      let '(bytes, rerr) := read_section d base n in
      match yaml_Decode bytes rerr with
      | inl e => Err e
      | inr extensionsConfig =>
          if Z.of_nat (length (Layers extensionsConfig)) =? 0
          then Err ErrNoLayers
          else
            match index (Layers extensionsConfig)
                        (Z.of_nat (length (Layers extensionsConfig)) - 1) with
            | None => Panic
            | Some last => Ok (ExtraInfo (Metadata last))
            end
      end
  end.

(** ** The extraction driver *)

(** How the inner [for] of the driver ends. *)
Inductive inner : Type :=
| Break (d : discarder)
| Return (res : result string).

(** The inner [for] of [extractRawSchematic]: one [ReadRecord] per turn. *)
Fixpoint records_loop (fuel : nat) (c : cpio_reader) (d : discarder)
  (t : trace) : option (inner * trace) :=
  match fuel with
  | O => None
  | S fuel' =>
      match ReadRecord c d with
      | (inl err, _, d1) =>
          if is_EOF err then Some (Break d1, t)
          else Some (Return (Err err), t)
      | (inr rec, c1, d1) =>
          let t1 := t ++ [LogFound (Name rec)] in
          if String.eqb (Name rec) extensionsYAMLFileName
          then Some (Return (parseRawFromExtensions (ReaderAt rec) d1), t1)
          else records_loop fuel' c1 d1 t1
      end
  end.

(** The outer [for] of [extractRawSchematic]; [closeFuncs] is the slice the
    deferred function ranges over. *)
Fixpoint layers_loop (fuel : nat) (reader : Reader)
  (closeFuncs : list closeFunc) (t : trace)
  : option (result string * list closeFunc * trace) :=
  match fuel with
  | O => None
  | S fuel' =>
      match decompressingReadCloser reader t with
      | (inl err, t1) => Some (Err err, closeFuncs, t1)
      | (inr (decReader, closeF), t1) =>
          let closeFuncs1 := closeFuncs ++ [closeF] in
          let d := new_discarder decReader in
          match records_loop fuel' Newc_Reader d t1 with
          | None => None
          | Some (Return res, t2) => Some (res, closeFuncs1, t2)
          | Some (Break d1, t2) =>
              match eatPadding (r d1) with
              | (Some err, _) => Some (Err err, closeFuncs1, t2)
              | (None, reader1) => layers_loop fuel' reader1 closeFuncs1 t2
              end
          end
      end
  end.

(** [extractRawSchematic]: the loop, then the deferred release.  [None]: the
    fuel did not suffice. *)
Definition extractRawSchematic (fuel : nat) (reader : Reader)
  : option (result string * trace) :=
  match layers_loop fuel reader [] [] with
  | None => None
  | Some (res, closeFuncs, t) => Some (res, run_closeFuncs closeFuncs t)
  end.

End Pipeline.

(** ** The older driver *)

(** The first version of the program has the whole pipeline inside [run].
    Its [discarder.ReadAt] and [eatPadding] are the ones above (the newer
    [eatPadding] only folds the [UnreadByte] error into its [return]). *)
Module Legacy.
Section Run.
Context {L : Libs}.

(** Lines 133-146 of [run]: the record named extensions.yaml was found.
    The type assertion and the index are unchecked. *)
Definition found (rec : cpio_Record) (d : discarder) (t : trace)
  : result string * trace :=
  match ReaderAt rec with
  | OtherReaderAt => (Panic, t)
  | SectionReader base n =>
      let '(bytes, rerr) := read_section d base n in
      match yaml_Decode bytes rerr with
      | inl e => (Err e, t)
      | inr extensionConfig =>
          match index (Layers extensionConfig)
                      (Z.of_nat (length (Layers extensionConfig)) - 1) with
          | None => (Panic, t)
          | Some lastLayer =>
              (Ok (ExtraInfo (Metadata lastLayer)),
               t ++ [LogRaw (ExtraInfo (Metadata lastLayer))])
          end
      end
  end.

(** How the inner [for] of [run] ends. *)
Inductive inner : Type :=
| Break (d : discarder)
| Return (res : result string).

Fixpoint records_loop (fuel : nat) (cpioR : cpio_reader) (d : discarder)
  (t : trace) : option (inner * trace) :=
  match fuel with
  | O => None
  | S fuel' =>
      match ReadRecord cpioR d with
      | (inl err, _, d1) =>
          if is_EOF err then Some (Break d1, t)
          else Some (Return (Err err), t)
      | (inr record, cpioR1, d1) =>
          let t1 := t ++ [LogFound (Name record)] in
          if String.eqb (Name record) "extensions.yaml"
          then let '(res, t2) := found record d1 t1 in Some (Return res, t2)
          else records_loop fuel' cpioR1 d1 t1
      end
  end.

(** Lines 95-115 of [run]: the peek and the [switch] on the magic.  The
    decoder that [zstd.NewReader] opens is never closed. *)
Definition sniff (in_ : Reader) (t : trace) : (error + Reader) * trace :=
  match Peek in_ 4 with
  | inl err => (inl err, t)
  | inr magic =>
      match classify magic with
      | XZ =>
          match xz_NewReader in_ with
          | inl err => (inl err, t)
          | inr rdr => (inr rdr, t)
          end
      | ZSTD =>
          match zstd_NewReader in_ with
          | inl err => (inl err, t)
          | inr rdr => (inr rdr, t ++ [Opened in_])
          end
      | NONE => (inr in_, t)
      end
  end.

(** The part of [run] after the artifact was opened.  [Ok raw]: [run] logged
    [raw] and returned [nil]. *)
Fixpoint run (fuel : nat) (in_ : Reader) (t : trace)
  : option (result string * trace) :=
  match fuel with
  | O => None
  | S fuel' =>
      match sniff in_ t with
      | (inl err, t1) => Some (Err err, t1)
      | (inr in1, t1) =>
          match records_loop fuel' Newc_Reader (new_discarder in1) t1 with
          | None => None
          | Some (Return res, t2) => Some (res, t2)
          | Some (Break d1, t2) =>
              match eatPadding (r d1) with
              | (Some err, _) => Some (Err err, t2)
              | (None, in2) => run fuel' in2 t2
              end
          end
      end
  end.

End Run.
End Legacy.

(** ** Runs of the driver, described by what the iterator returns *)

Section Runs.
Context {L : Libs}.

(** The log lines of a sequence of records. *)
Definition found_lines (recs : list cpio_Record) : trace :=
  map (fun rec => LogFound (Name rec)) recs.

(** From the iterator state [c], [d] the next calls of [ReadRecord] return
    the records [recs], none of them named extensions.yaml, and leave the
    state [c'], [d']. *)
Inductive skips : cpio_reader -> discarder -> list cpio_Record ->
                  cpio_reader -> discarder -> Prop :=
| skips_nil c d : skips c d [] c d
| skips_cons c d rec c1 d1 recs c2 d2 :
    ReadRecord c d = (inr rec, c1, d1) ->
    Name rec <> extensionsYAMLFileName ->
    skips c1 d1 recs c2 d2 ->
    skips c d (rec :: recs) c2 d2.

(** One layer without the member: the sniffer succeeds, the iterator returns
    records with other names and then io.EOF, the padding is skipped without
    error and leaves [reader']. *)
Inductive passes : Reader -> trace -> Reader -> closeFunc -> trace -> Prop :=
| passes_intro reader t decReader closeF t1 recs c2 d2 err c3 d3 reader' :
    decompressingReadCloser reader t = (inr (decReader, closeF), t1) ->
    skips Newc_Reader (new_discarder decReader) recs c2 d2 ->
    ReadRecord c2 d2 = (inl err, c3, d3) ->
    is_EOF err = true ->
    eatPadding (r d3) = (None, reader') ->
    passes reader t reader' closeF (t1 ++ found_lines recs).

(** Any number of such layers, one after the other. *)
Inductive passes_all : Reader -> list closeFunc -> trace ->
                       Reader -> list closeFunc -> trace -> Prop :=
| passes_none reader cfs t : passes_all reader cfs t reader cfs t
| passes_more reader cfs t reader1 closeF t1 reader2 cfs2 t2 :
    passes reader t reader1 closeF t1 ->
    passes_all reader1 (cfs ++ [closeF]) t1 reader2 cfs2 t2 ->
    passes_all reader cfs t reader2 cfs2 t2.

(** After layers without the member comes a layer in which, after records
    with other names, the iterator returns the record [rec] named
    extensions.yaml, leaving the discarder [d3]. *)
Inductive finds : Reader -> cpio_Record -> discarder ->
                  list closeFunc -> trace -> Prop :=
| finds_intro reader reader1 cfs1 t1 decReader closeF t2 recs c2 d2 rec c3 d3 :
    passes_all reader [] [] reader1 cfs1 t1 ->
    decompressingReadCloser reader1 t1 = (inr (decReader, closeF), t2) ->
    skips Newc_Reader (new_discarder decReader) recs c2 d2 ->
    ReadRecord c2 d2 = (inr rec, c3, d3) ->
    Name rec = extensionsYAMLFileName ->
    finds reader rec d3 (cfs1 ++ [closeF])
          (t2 ++ found_lines recs ++ [LogFound (Name rec)]).

(** The error names the member that was looked for. *)
Definition reports_member (e : error) : Prop :=
  exists pre post : string,
    Error e = (pre ++ extensionsYAMLFileName ++ post)%string.

(** The decoders opened and the decoders closed, in the order of a trace. *)
Fixpoint opened (t : trace) : list Reader :=
  match t with
  | [] => []
  | Opened src :: t' => src :: opened t'
  | _ :: t' => opened t'
  end.

Fixpoint closed (t : trace) : list Reader :=
  match t with
  | [] => []
  | Closed src :: t' => src :: closed t'
  | _ :: t' => closed t'
  end.

(** The decoders a list of release functions closes. *)
Fixpoint closes (cfs : list closeFunc) : list Reader :=
  match cfs with
  | [] => []
  | nop :: cfs' => closes cfs'
  | decoder_Close src :: cfs' => src :: closes cfs'
  end.

End Runs.

(** ** A concrete instance of the libraries *)

(** A reference reader for the SVR4 "newc" cpio framing written against
    [discarder.ReadAt] (a 110-byte header of the magic 070701 and thirteen
    8-digit hexadecimal fields, the NUL-terminated name and the body, both
    padded to four bytes; the record named TRAILER!!! ends the archive),
    with stand-ins for the codecs (a frame is its magic followed by the
    payload, stored) and for the document syntax (one layer per line, the
    line being its extra-info text).  It is what the statements below are
    evaluated on. *)
Module Demo.

Definition hex_digit (b : byte) : option Z :=
  let n := Z.of_nat (Byte.to_nat b) in
  if (48 <=? n) && (n <=? 57) then Some (n - 48)
  else if (97 <=? n) && (n <=? 102) then Some (n - 87)
  else if (65 <=? n) && (n <=? 70) then Some (n - 55)
  else None.

Fixpoint hex_value (bs : list byte) (acc : Z) : option Z :=
  match bs with
  | [] => Some acc
  | b :: rest =>
      match hex_digit b with
      | Some v => hex_value rest (16 * acc + v)
      | None => None
      end
  end.

(** The [k]-th hexadecimal field of a header. *)
Definition field (buf : list byte) (k : nat) : option Z :=
  hex_value (firstn 8 (skipn (6 + 8 * k) buf)) 0.

Definition newc_magic : list byte := list_byte_of_string "070701".
Definition Trailer : string := "TRAILER!!!".

Definition round4 (n : Z) : Z := ((n + 3) / 4) * 4.

(** Read [n] bytes at the reader's position through the discarder. *)
Definition read (d : discarder) (p : Z) (n : nat)
  : (error + list byte * Z) * discarder :=
  let '((got, err), d1) := ReadAt d n p in
  match err with
  | Some e =>
      if is_EOF e then (inl EOF, d1)
      else (inl (ErrLib "cpio: ReadAt failed"), d1)
  | None =>
      if (length got =? n)%nat then (inr (got, p + Z.of_nat n), d1)
      else (inl (ErrLib "cpio: ReadAt failed"), d1)
  end.

Definition newc_ReadRecord (p : Z) (d : discarder)
  : (error + cpio_Record) * Z * discarder :=
  match read d p 110 with
  | (inl e, d1) => (inl e, p, d1)
  | (inr (buf, p1), d1) =>
      if negb (bytes_Equal (firstn 6 buf) newc_magic)
      then (inl (ErrLib "cpio: bad magic"), p1, d1)
      else
        match field buf 6, field buf 11 with
        | Some filesize, Some namesize =>
            if namesize =? 0
            then (inl (ErrLib "cpio: name field of length zero"), p1, d1)
            else
              match read d1 p1 (Z.to_nat namesize) with
              | (inl e, d2) => (inl e, round4 p1, d2)
              | (inr (nameBuf, p2), d2) =>
                  let p3 := round4 p2 in
                  let name :=
                    string_of_list_byte
                      (firstn (Z.to_nat (namesize - 1)) nameBuf) in
                  if String.eqb name Trailer
                  then (inl EOF, round4 (p3 + filesize), d2)
                  else (inr (mkRecord name (SectionReader p3 filesize)),
                        round4 (p3 + filesize), d2)
              end
        | _, _ => (inl (ErrLib "cpio: bad header"), p1, d1)
        end
  end.

(** A stored frame: four bytes of magic, then the payload. *)
Definition stored_NewReader (rd : Reader) : error + Reader :=
  if (4 <=? length (data rd))%nat then inr (advance 4 rd)
  else inl (ErrLib "codec: truncated header").

(** One layer per line. *)
Fixpoint lines (bs cur : list byte) : list (list byte) :=
  match bs with
  | [] => match cur with [] => [] | _ => [rev cur] end
  | b :: rest =>
      if Byte.eqb b x0a then rev cur :: lines rest []
      else lines rest (b :: cur)
  end.

Definition decode_lines (bs : list byte) (rerr : option error)
  : error + Config :=
  match rerr with
  | Some e => inl e
  | None =>
      inr (mkConfig
             (map (fun l => mkLayer (mkMetadata (string_of_list_byte l)))
                  (lines bs [])))
  end.

#[export] Instance libs : Libs := {|
  cpio_reader := Z;
  Newc_Reader := 0;
  ReadRecord := newc_ReadRecord;
  xz_NewReader := stored_NewReader;
  zstd_NewReader := stored_NewReader;
  yaml_Decode := decode_lines
|}.

(** *** Writing archives *)

Definition hex_char (v : Z) : byte :=
  match Byte.of_nat (Z.to_nat (if v <? 10 then 48 + v else 87 + v)) with
  | Some b => b
  | None => x30
  end.

Fixpoint hex_digits (k : nat) (v : Z) (acc : list byte) : list byte :=
  match k with
  | O => acc
  | S k' => hex_digits k' (v / 16) (hex_char (v mod 16) :: acc)
  end.

Definition hex8 (v : Z) : list byte := hex_digits 8 v [].

Definition pad4 (n : nat) : list byte :=
  repeat x00 (Z.to_nat (round4 (Z.of_nat n)) - n).

(** One record: header, name, body. *)
Definition entry (name : string) (body : list byte) : list byte :=
  let nm := list_byte_of_string name ++ [x00] in
  let hdr :=
    newc_magic
      ++ hex8 0 ++ hex8 33188 ++ hex8 0 ++ hex8 0 ++ hex8 1 ++ hex8 0
      ++ hex8 (Z.of_nat (length body))
      ++ hex8 0 ++ hex8 0 ++ hex8 0 ++ hex8 0
      ++ hex8 (Z.of_nat (length nm)) ++ hex8 0 in
  hdr ++ nm ++ pad4 (length hdr + length nm) ++ body ++ pad4 (length body).

Definition trailer : list byte := entry Trailer [].

(** A reader over a byte sequence that ends cleanly. *)
Definition bytes_Reader (bs : list byte) : Reader := mkReader bs None.

End Demo.

(** ** Sample artifacts *)

Module Samples.
Import Demo.

(** A document of two layers, "first" and "hello". *)
Definition two_layers : list byte :=
  list_byte_of_string "first" ++ [x0a] ++ list_byte_of_string "hello".

(** An uncompressed archive: a.txt, extensions.yaml (the two-layer
    document), a second extensions.yaml, the trailer. *)
Definition archive : list byte :=
  entry "a.txt" (list_byte_of_string "xyzzy")
    ++ entry "extensions.yaml" two_layers
    ++ entry "extensions.yaml" (list_byte_of_string "other")
    ++ trailer.

(** An archive without extensions.yaml, padded with zero bytes. *)
Definition no_member : list byte :=
  entry "a.txt" (list_byte_of_string "xyzzy") ++ trailer ++ repeat x00 8.

(** An archive whose extensions.yaml holds a document without layers. *)
Definition no_layers : list byte := entry "extensions.yaml" [] ++ trailer.

(** Two Zstandard frames one after the other, each holding an archive
    without extensions.yaml. *)
Definition inner_frame : list byte := zstd_magic ++ trailer.
Definition two_frames : list byte := zstd_magic ++ trailer ++ inner_frame.

End Samples.

(** ** Inputs the statements are evaluated on *)

Definition eight_bytes : list byte := [x01; x02; x03; x04; x05; x06; x07; x08].

(** Two reads of four bytes at the offsets 0 and 2. *)
Definition overlapping_reads : list (Z * nat) := [(0, 4%nat); (2, 4%nat)].

(** Two reads that follow each other with a gap. *)
Definition forward_reads : list (Z * nat) := [(1, 2%nat); (5, 3%nat)].

(** The offsets of the requests do not decrease. *)
Fixpoint offsets_nondecreasing (reqs : list (Z * nat)) : bool :=
  match reqs with
  | [] => true
  | (off, _) :: rest =>
      match rest with
      | [] => true
      | (off', _) :: _ => (off <=? off') && offsets_nondecreasing rest
      end
  end.

(** Every request lies inside a stream of [len] bytes. *)
Definition within (len : Z) (reqs : list (Z * nat)) : bool :=
  forallb (fun '(off, n) => (0 <=? off) && (off + Z.of_nat n <=? len)) reqs.

(** No request starts before the cursor the previous one left, and every
    request lies inside a stream of [len] bytes. *)
Fixpoint chained (cur len : Z) (reqs : list (Z * nat)) : Prop :=
  match reqs with
  | [] => True
  | (off, n) :: rest =>
      cur <= off /\ off + Z.of_nat n <= len
      /\ chained (off + Z.of_nat n) len rest
  end.

(** The cursor after the requests, started at [cur]. *)
Fixpoint cursor_after (cur : Z) (reqs : list (Z * nat)) : Z :=
  match reqs with
  | [] => cur
  | (off, n) :: rest => cursor_after (off + Z.of_nat n) rest
  end.

(** What the requests should deliver: the slices, without error. *)
Definition slices (s : list byte) (reqs : list (Z * nat)) : list read_result :=
  map (fun '(off, n) => (slice s off n, None)) reqs.

(** A discarder whose cursor is [cur] over the stream [s]. *)
Definition at_cursor (s : list byte) (fl : option error) (cur : Z) : discarder :=
  mkDiscarder (mkReader (skipn (Z.to_nat cur) s) fl) cur.

(** ** More about runs *)

(** The names in the "found record" lines of a trace, in order. *)
Fixpoint found_names (t : trace) : list string :=
  match t with
  | [] => []
  | LogFound name :: t' => name :: found_names t'
  | _ :: t' => found_names t'
  end.

(** How the result of the older [run] may differ from the result of
    [extractRawSchematic]: not at all, or by a panic where the newer code
    returns one of its two own errors. *)
Definition agrees (res res' : result string) : Prop :=
  res' = res
  \/ (res' = Panic /\ (res = Err ErrNoLayers \/ res = Err ErrReaderAtType)).

(** The trace of the older [run] given the trace of the newer loop: the text
    is logged when there is one. *)
Definition Legacy_trace (res' : result string) (t : trace) : trace :=
  match res' with
  | Ok raw => t ++ [LogRaw raw]
  | _ => t
  end.

Module MoreSamples.
Import Demo.

(** Eleven bytes that are no archive. *)
Definition garbage : list byte := list_byte_of_string "hello world".

(** An archive without extensions.yaml, zero padding, and one more byte. *)
Definition trailing_junk : list byte :=
  entry "a.txt" (list_byte_of_string "xyzzy") ++ trailer
    ++ repeat x00 4 ++ [x01].

(** An archive whose source fails after the last byte was delivered. *)
Definition failing_source : Reader :=
  mkReader trailer (Some (ErrLib "read: input/output error")).

End MoreSamples.

(** ** The cache, the download and [run] *)

(** The files, by path. *)
Definition files : Type := string -> option (list byte).

Definition write_file (fs : files) (p : string) (c : list byte) : files :=
  fun q => if String.eqb q p then Some c else fs q.

Definition remove_file (fs : files) (p : string) : files :=
  fun q => if String.eqb q p then None else fs q.

(** The path functions and the quoting of [%q], from the Go library. *)
Class OSLib : Type := {
  filepath_Join : string -> string -> string;
  filepath_Dir : string -> string;
  strconv_Quote : string -> string
}.

(** What lies outside the program during one run: the arguments, the home
    directory, the system calls that fail (and with what), the suffix
    [os.CreateTemp] picks, what the server answers to a GET (an error, or a
    status code and a body), how many bytes a failing write gets through,
    and the error the opened artifact ends with. *)
Record world : Type := mkWorld {
  Args : list string;
  UserHomeDir : error + string;
  stat_fault : option error;
  mkdir_fault : string -> option error;
  create_fault : option error;
  createtemp_fault : option error;
  temp_suffix : string;
  newrequest_fault : option error;
  http_Do : string -> error + Z * Reader;
  write_fault : option (nat * error);
  sync_fault : option error;
  close_fault : option error;
  rename_fault : option error;
  remove_fault : option error;
  open_fault : option error;
  read_fault : option error
}.

Inductive stat_result : Type :=
| StatOk
| StatNotExist
| StatFailed (e : error).

(** [os.Stat(path)]. *)
Definition os_Stat (w : world) (fs : files) (path : string) : stat_result :=
  match stat_fault w with
  | Some e => StatFailed e
  | None => match fs path with
            | Some _ => StatOk
            | None => StatNotExist
            end
  end.

(** [os.Rename(src, dst)]. *)
Definition os_Rename (w : world) (fs : files) (src dst : string)
  : option error * files :=
  match rename_fault w with
  | Some e => (Some e, fs)
  | None =>
      match fs src with
      | Some c => (None, write_file (remove_file fs src) dst c)
      | None => (Some (ErrLib "rename: no such file or directory"), fs)
      end
  end.

(** [_ = os.Remove(name)]: the error is dropped. *)
Definition os_Remove (w : world) (fs : files) (name : string) : files :=
  match remove_fault w with
  | Some _ => fs
  | None => remove_file fs name
  end.

(** [io.Copy(file, body)] into an empty file: what was written, and the
    error. *)
Definition io_Copy_file (w : world) (body : Reader)
  : list byte * option error :=
  let finished :=
    (data body,
     if is_EOF (end_err body) then None else Some (end_err body)) in
  match write_fault w with
  | Some (k, e) =>
      if (k <? length (data body))%nat then (firstn k (data body), Some e)
      else finished
  | None => finished
  end.

(** [fmt.Errorf(prefix + ": %w", err)], as far as its text goes. *)
Definition wrapf (prefix : string) (e : error) : error :=
  ErrLib (prefix ++ ": " ++ Error e).

(** [%d] *)
Definition decimal (z : Z) : string := NilZero.string_of_int (Z.to_int z).

Definition defaultTalosVersion : string := "v1.10.6".
Definition defaultFactoryBaseURL : string := "https://factory.talos.dev".
Definition defaultCacheDirName : string :=
  ".talos-schematic-id-to-raw-schematic-cache".

Record config : Type := mkConfig_ {
  SchematicID : string;
  TalosVersion : string;
  BaseURL : string;
  CacheDir : string
}.

(** [fmt.Sprintf(initramfsFilenameTmpl, c.TalosVersion, c.SchematicID)] *)
Definition cacheFileName (c : config) : string :=
  (TalosVersion c ++ "-initramfs-amd64-" ++ SchematicID c ++ ".xz")%string.

(** [func (c *config) initramfsURL() string] *)
Definition initramfsURL (c : config) : string :=
  (BaseURL c ++ "/image/" ++ SchematicID c ++ "/" ++ TalosVersion c
     ++ "/initramfs-amd64.xz")%string.

Section Download.
Context {O : OSLib}.

(** [func (c *config) cacheFilePath() string] *)
Definition cacheFilePath (c : config) : string :=
  filepath_Join (CacheDir c) (cacheFileName c).

(** [buildConfig]; [os.Args[0]] of an empty argument list panics. *)
Definition buildConfig (w : world) : result config :=
  if (length (Args w) <? 2)%nat then
    match index (Args w) 0 with
    | None => Panic
    | Some prog => Err (ErrLib ("usage: " ++ prog ++ " <schematic-id>"))
    end
  else
    match index (Args w) 1 with
    | None => Panic
    | Some sid =>
        match UserHomeDir w with
        | inl err => Err (wrapf "failed to get user home dir" err)
        | inr homeDir =>
            Ok (mkConfig_ sid defaultTalosVersion defaultFactoryBaseURL
                  (filepath_Join homeDir defaultCacheDirName))
        end
    end.

(** The name [os.CreateTemp(filepath.Dir(path), ".partial-*")] gives the
    file. *)
Definition temp_path (w : world) (path : string) : string :=
  filepath_Join (filepath_Dir path) (".partial-" ++ temp_suffix w).

(** [os.CreateTemp]: an empty file that was not there before; a name that
    is taken counts as a failure (the library would draw another suffix). *)
Definition os_CreateTemp (w : world) (fs : files) (path : string)
  : error + string * files :=
  match createtemp_fault w with
  | Some e => inl e
  | None =>
      match fs (temp_path w path) with
      | Some _ => inl (ErrLib "open: file exists")
      | None => inr (temp_path w path, write_file fs (temp_path w path) [])
      end
  end.

(** [ensureInitramfsCached]: the error, the files afterwards (the deferred
    removal of the temporary file has run) and the URLs that were
    requested. *)
Definition ensureInitramfsCached (w : world) (fs : files) (path url : string)
  : option error * files * list string :=
  match os_Stat w fs path with
  | StatOk => (None, fs, [])
  | _ =>
      match mkdir_fault w (filepath_Dir path) with
      | Some e => (Some (wrapf "mkdir" e), fs, [])
      | None =>
          match os_CreateTemp w fs path with
          | inl e => (Some (wrapf "create temp" e), fs, [])
          | inr (tmp, fs1) =>
              match newrequest_fault w with
              | Some e =>
                  (Some (wrapf "new request" e), os_Remove w fs1 tmp, [])
              | None =>
                  match http_Do w url with
                  | inl e =>
                      (Some (wrapf "download" e), os_Remove w fs1 tmp, [url])
                  | inr (status, body) =>
                      if negb (status =? 200) then
                        (Some (ErrLib ("download status " ++ decimal status)),
                         os_Remove w fs1 tmp, [url])
                      else
                        let '(written, cerr) := io_Copy_file w body in
                        let fs2 := write_file fs1 tmp written in
                        match cerr with
                        | Some e =>
                            (Some (wrapf "write" e), os_Remove w fs2 tmp,
                             [url])
                        | None =>
                            match sync_fault w with
                            | Some e =>
                                (Some (wrapf "fsync" e), os_Remove w fs2 tmp,
                                 [url])
                            | None =>
                                match close_fault w with
                                | Some e =>
                                    (Some (wrapf "close tmp" e),
                                     os_Remove w fs2 tmp, [url])
                                | None =>
                                    let '(rerr, fs3) :=
                                      os_Rename w fs2 tmp path in
                                    (rerr, os_Remove w fs3 tmp, [url])
                                end
                            end
                        end
                  end
              end
          end
      end
  end.

End Download.

Section Run.
Context {L : Libs} {O : OSLib}.

(** [os.Open(path)] and [bufio.NewReader] over the file. *)
Definition os_Open (w : world) (fs : files) (path : string)
  : error + Reader :=
  match open_fault w with
  | Some e => inl e
  | None =>
      match fs path with
      | Some c => inr (mkReader c (read_fault w))
      | None => inl (ErrLib "open: no such file or directory")
      end
  end.

(** The newer [run]: the result ([Ok raw]: [raw] was logged and [nil]
    returned), the files afterwards, the URLs requested and the log. *)
Definition run (w : world) (fs : files) (fuel : nat)
  : option (result string * files * list string * trace) :=
  match buildConfig w with
  | Panic => Some (Panic, fs, [], [])
  | Err e => Some (Err e, fs, [], [])
  | Ok cfg =>
      match mkdir_fault w (CacheDir cfg) with
      | Some e =>
          Some (Err (ErrLib ("failed to create cache dir "
                               ++ strconv_Quote (CacheDir cfg) ++ ": "
                               ++ Error e)), fs, [], [])
      | None =>
          let localPath := cacheFilePath cfg in
          match ensureInitramfsCached w fs localPath (initramfsURL cfg) with
          | (Some e, fs1, urls) => Some (Err e, fs1, urls, [])
          | (None, fs1, urls) =>
              match os_Open w fs1 localPath with
              | inl e =>
                  Some (Err (ErrLib ("failed to open "
                                       ++ strconv_Quote localPath ++ ": "
                                       ++ Error e)), fs1, urls, [])
              | inr initramfsFile =>
                  match extractRawSchematic fuel initramfsFile with
                  | None => None
                  | Some (Ok raw, t) =>
                      Some (Ok raw, fs1, urls, t ++ [LogRaw raw])
                  | Some (res, t) => Some (res, fs1, urls, t)
                  end
              end
          end
      end
  end.

(** Lines 47-81 of the older [run]: the artifact is written straight to its
    final path. *)
Definition Legacy_download (w : world) (fs : files) (filePath url : string)
  : option error * files * list string :=
  match os_Stat w fs filePath with
  | StatOk => (None, fs, [])
  | StatFailed e =>
      (Some (ErrLib ("failed to stat file " ++ strconv_Quote filePath ++ ": "
                       ++ Error e)), fs, [])
  | StatNotExist =>
      match create_fault w with
      | Some e =>
          (Some (ErrLib ("failed to create file " ++ strconv_Quote filePath
                           ++ ": " ++ Error e)), fs, [])
      | None =>
          let fs1 := write_file fs filePath [] in
          match newrequest_fault w with
          | Some e =>
              (Some (ErrLib ("failed to download initramfs from "
                               ++ strconv_Quote url ++ ": " ++ Error e)),
               fs1, [])
          | None =>
              match http_Do w url with
              | inl e =>
                  (Some (ErrLib ("failed to download initramfs from "
                                   ++ strconv_Quote url ++ ": " ++ Error e)),
                   fs1, [url])
              | inr (status, body) =>
                  if negb (status =? 200) then
                    (Some (ErrLib ("failed to download initramfs from "
                                     ++ strconv_Quote url ++ ": status code "
                                     ++ decimal status)), fs1, [url])
                  else
                    let '(written, cerr) := io_Copy_file w body in
                    let fs2 := write_file fs1 filePath written in
                    match cerr with
                    | Some e =>
                        (Some (ErrLib ("failed to write initramfs to "
                                         ++ strconv_Quote filePath ++ ": "
                                         ++ Error e)), fs2, [url])
                    | None => (None, fs2, [url])
                    end
              end
          end
      end
  end.

End Run.

(** A world for the examples: paths are joined with a slash, nothing fails,
    the server answers 200 with [body]. *)
Module DemoOS.

#[export] Instance oslib : OSLib := {|
  filepath_Join := fun a b => (a ++ "/" ++ b)%string;
  filepath_Dir := fun _ => "/home/u/.talos-schematic-id-to-raw-schematic-cache"%string;
  strconv_Quote := fun s => (String (Ascii.ascii_of_nat 34) s
                             ++ String (Ascii.ascii_of_nat 34) EmptyString)%string
|}.

Definition quiet (args : list string) (server : string -> error + Z * Reader)
  : world :=
  mkWorld args (inr "/home/u"%string) None (fun _ => None) None None "1234"
          None server None None None None None None None.

Definition serves (body : list byte) : string -> error + Z * Reader :=
  fun _ => inr (200, mkReader body None).

Definition refuses : string -> error + Z * Reader :=
  fun _ => inl (ErrLib "dial tcp: connection refused").

Definition no_files : files := fun _ => None.

Definition cache_path : string :=
  "/home/u/.talos-schematic-id-to-raw-schematic-cache/v1.10.6-initramfs-amd64-abc.xz".

End DemoOS.

(** ** Conditions on the iterator and on the artifact *)

Section Conditions.
Context {L : Libs}.

(** The archive iterator only consumes bytes of the discarder's reader, and
    consumes at least one whenever it returns a record, or returns io.EOF
    on a reader that still has bytes. *)
Definition iterator_consumes : Prop :=
  forall c d res c' d', ReadRecord c d = (res, c', d') ->
  (exists k, r d' = advance k (r d))
  /\ (match res with
      | inr _ => True
      | inl e => is_EOF e = true /\ data (r d) <> []
      end ->
      (length (data (r d')) < length (data (r d)))%nat).

(** [deep] is what one of the codecs delivers for the bytes of [shallow]
    from some position on: the reader of a compressed layer found inside
    [shallow]. *)
Definition nested (deep shallow : Reader) : Prop :=
  exists k, xz_NewReader (advance k shallow) = inr deep
            \/ zstd_NewReader (advance k shallow) = inr deep.

(** The compressed layers inside [reader] are nested only finitely deep:
    there is no endless chain of readers each delivered by a codec for a
    part of the one before. *)
Definition finitely_nested (reader : Reader) : Prop := Acc nested reader.

End Conditions.

(** Libraries on which the loop does not end: the newc iterator and the
    document syntax of [Demo], and a codec whose frames hold their own
    bytes again: four bytes of magic, then the payload, and the frame stands
    for its payload followed by the frame itself. *)
Module Endless.

Definition echo_NewReader (rd : Reader) : error + Reader :=
  if (4 <=? length (data rd))%nat
  then inr (mkReader (skipn 4 (data rd) ++ data rd) (fail rd))
  else inl (ErrLib "codec: truncated header").

#[export] Instance libs : Libs := {|
  cpio_reader := Z;
  Newc_Reader := 0;
  ReadRecord := Demo.newc_ReadRecord;
  xz_NewReader := echo_NewReader;
  zstd_NewReader := echo_NewReader;
  yaml_Decode := Demo.decode_lines
|}.

(** The artifact: one frame that holds an archive without records. *)
Definition artifact : Reader := mkReader (zstd_magic ++ Demo.trailer) None.

End Endless.

(** * Properties *)

(** ** int64 *)

Lemma wrap64_id (z : Z) : min_int64 <= z <= max_int64 -> wrap64 z = z.
Proof.
  unfold wrap64, min_int64, max_int64. intros H.
  rewrite Z.mod_small; lia.
Qed.

(** ** The byte-offset adapter *)

Lemma ReadAt_slice (s : list byte) (fl : option error) (cur off : Z) (n : nat) :
  Z.of_nat (length s) <= max_int64 ->
  0 <= cur <= off -> off + Z.of_nat n <= Z.of_nat (length s) ->
  ReadAt (at_cursor s fl cur) n off
  = ((slice s off n, None), at_cursor s fl (off + Z.of_nat n)).
Proof.
  intros Hmax Hcur Hlen.
  assert (Hm : max_int64 = 2 ^ 63 - 1) by reflexivity.
  assert (Hmi : min_int64 = - 2 ^ 63) by reflexivity.
  unfold ReadAt, at_cursor; cbn [pos r].
  rewrite (wrap64_id (off - cur)) by lia.
  destruct (off - cur <? 0) eqn:Hneg; [apply Z.ltb_lt in Hneg; lia|].
  assert (Hfull : forall d1 : discarder,
    d1 = mkDiscarder (mkReader (skipn (Z.to_nat off) s) fl) off ->
    (let '(got, err, rd) := io_ReadFull (r d1) n in
     match err with
     | Some e => ((got, Some e), mkDiscarder rd (pos d1))
     | None => ((got, None),
                mkDiscarder rd (wrap64 (pos d1 + Z.of_nat (length got))))
     end)
    = ((slice s off n, None),
       mkDiscarder (mkReader (skipn (Z.to_nat (off + Z.of_nat n)) s) fl)
                   (off + Z.of_nat n))).
  { intros d1 ->. unfold io_ReadFull, advance; cbn [r pos data fail].
    rewrite length_skipn.
    destruct (n <=? length s - Z.to_nat off)%nat eqn:Hn;
      [|apply Nat.leb_gt in Hn; lia].
    rewrite length_firstn, length_skipn.
    rewrite Nat.min_l by (apply Nat.leb_le in Hn; lia).
    rewrite wrap64_id by lia.
    rewrite skipn_skipn.
    replace (n + Z.to_nat off)%nat with (Z.to_nat (off + Z.of_nat n)) by lia.
    reflexivity. }
  destruct (off =? cur) eqn:Heq.
  - apply Z.eqb_eq in Heq. subst cur. apply Hfull. reflexivity.
  - apply Z.eqb_neq in Heq.
    unfold io_Copy_Discard_Limit, advance; cbn [data fail].
    destruct (off - cur <=? 0) eqn:H0; [apply Z.leb_le in H0; lia|].
    rewrite length_skipn.
    destruct (off - cur <=? Z.of_nat (length s - Z.to_nat cur)) eqn:H1;
      [|apply Z.leb_gt in H1; lia].
    rewrite Z.eqb_refl. cbn [negb].
    rewrite skipn_skipn.
    apply Hfull.
    rewrite wrap64_id by lia.
    replace (Z.to_nat (off - cur) + Z.to_nat cur)%nat with (Z.to_nat off) by lia.
    f_equal. lia.
Qed.

Lemma ReadAt_all_chained (s : list byte) (fl : option error)
  (reqs : list (Z * nat)) :
  Z.of_nat (length s) <= max_int64 ->
  forall cur, 0 <= cur ->
  chained cur (Z.of_nat (length s)) reqs ->
  ReadAt_all (at_cursor s fl cur) reqs
  = (slices s reqs, at_cursor s fl (cursor_after cur reqs)).
Proof.
  intros Hmax. induction reqs as [|[off n] rest IH]; intros cur Hcur Hch.
  - reflexivity.
  - destruct Hch as (H1 & H2 & H3). cbn [ReadAt_all].
    rewrite ReadAt_slice by lia.
    rewrite IH by (assumption || lia). reflexivity.
Qed.

(** C2, as amended: started on a stream [s] of at most [max_int64] bytes,
    requests none of which begins before the cursor left by the previous one
    (offset plus length) and all of which end inside [s] deliver exactly the
    slices [off, off+n) of [s], without error; afterwards the cursor is the
    end of the last request and the reader stands at that byte of [s], the
    bytes skipped in between having been consumed. *)
Theorem ReadAt_all_forward_slices (s : list byte) (fl : option error)
  (reqs : list (Z * nat)) :
  Z.of_nat (length s) <= max_int64 ->
  chained 0 (Z.of_nat (length s)) reqs ->
  ReadAt_all (new_discarder (mkReader s fl)) reqs
  = (slices s reqs, at_cursor s fl (cursor_after 0 reqs)).
Proof.
  intros Hmax Hch.
  change (new_discarder (mkReader s fl)) with (at_cursor s fl 0).
  apply ReadAt_all_chained; [assumption | lia | assumption].
Qed.

Lemma ReadAt_all_forward_slices_witness :
  ReadAt_all (new_discarder (mkReader eight_bytes None)) forward_reads
  = ([([x02; x03], None); ([x06; x07; x08], None)],
     mkDiscarder (mkReader [] None) 8).
Proof.
  apply (ReadAt_all_forward_slices eight_bytes None forward_reads).
  - vm_compute. discriminate.
  - cbn. lia.
Defined.

(** C2, as stated, fails: the offsets 0 and 2 do not decrease and both
    four-byte requests lie inside the eight bytes, yet the second one starts
    before the cursor (4) and is refused instead of delivering bytes 2..5. *)
Lemma ReadAt_all_overlap_refused :
  offsets_nondecreasing overlapping_reads = true
  /\ within 8 overlapping_reads = true
  /\ fst (ReadAt_all (new_discarder (mkReader eight_bytes None))
                     overlapping_reads)
     = [([x01; x02; x03; x04], None); ([], Some ErrNegativeSeek)]
  /\ fst (ReadAt_all (new_discarder (mkReader eight_bytes None))
                     overlapping_reads)
     <> slices eight_bytes overlapping_reads.
Proof.
  repeat split; try reflexivity.
  vm_compute. discriminate.
Qed.

(** C7, at the failing input: on a three-byte stream that ends cleanly a
    request for two bytes at offset 5 runs out of input while discarding;
    [ReadAt] returns no bytes and a nil error, the three bytes are consumed
    and the cursor stays at 0. *)
Theorem ReadAt_short_discard_returns_nil :
  ReadAt (new_discarder (mkReader [x01; x02; x03] None)) 2 5
  = (([], None), mkDiscarder (mkReader [] None) 0).
Proof. reflexivity. Qed.

(** The same on every stream that ends cleanly before the offset is
    reached. *)
Lemma ReadAt_short_discard (s : list byte) (cur off : Z) (n : nat) :
  0 <= cur -> cur + Z.of_nat (length s) < off -> off <= max_int64 ->
  ReadAt (mkDiscarder (mkReader s None) cur) n off
  = (([], None), mkDiscarder (mkReader [] None) cur).
Proof.
  intros Hcur Hshort Hmax.
  assert (Hm : max_int64 = 2 ^ 63 - 1) by reflexivity.
  assert (Hmi : min_int64 = - 2 ^ 63) by reflexivity.
  unfold ReadAt; cbn [pos r].
  rewrite (wrap64_id (off - cur)) by lia.
  destruct (off - cur <? 0) eqn:Hneg; [apply Z.ltb_lt in Hneg; lia|].
  destruct (off =? cur) eqn:Heq; [apply Z.eqb_eq in Heq; lia|].
  unfold io_Copy_Discard_Limit, advance, end_err; cbn [data fail is_EOF].
  destruct (off - cur <=? 0) eqn:H0; [apply Z.leb_le in H0; lia|].
  destruct (off - cur <=? Z.of_nat (length s)) eqn:H1;
    [apply Z.leb_le in H1; lia|].
  destruct (Z.of_nat (length s) =? off - cur) eqn:H2;
    [apply Z.eqb_eq in H2; lia|].
  cbn [negb]. rewrite skipn_all. reflexivity.
Qed.

(** When the offset is the cursor and the stream holds fewer bytes than
    asked for, the read itself reports the shortage. *)
Lemma ReadAt_short_read (rd : Reader) (cur : Z) (n : nat) :
  (length (data rd) < n)%nat ->
  exists e, snd (fst (ReadAt (mkDiscarder rd cur) n cur)) = Some e.
Proof.
  intros Hlt. unfold ReadAt; cbn [pos r].
  rewrite Z.sub_diag. change (wrap64 0 <? 0) with false. cbn match.
  rewrite Z.eqb_refl. unfold io_ReadFull. cbn [r pos].
  destruct (n <=? length (data rd))%nat eqn:Hn;
    [apply Nat.leb_le in Hn; lia|].
  eexists. reflexivity.
Qed.

(** C8: whenever the offset (a non-negative [int64]) is below the cursor,
    [ReadAt] fails with the negative-seek error, hands back no bytes and
    leaves the reader and the cursor as they were. *)
Theorem ReadAt_backward_refused (d : discarder) (n : nat) (off : Z) :
  0 <= off -> off < pos d -> pos d <= max_int64 ->
  ReadAt d n off = (([], Some ErrNegativeSeek), d).
Proof.
  intros H0 Hlt Hmax.
  assert (Hm : max_int64 = 2 ^ 63 - 1) by reflexivity.
  assert (Hmi : min_int64 = - 2 ^ 63) by reflexivity.
  unfold ReadAt. rewrite wrap64_id by lia.
  destruct (off - pos d <? 0) eqn:Hneg; [reflexivity|].
  apply Z.ltb_ge in Hneg. lia.
Qed.

Lemma ReadAt_backward_refused_witness :
  ReadAt (mkDiscarder (mkReader [x05; x06] None) 4) 1 3
  = (([], Some ErrNegativeSeek), mkDiscarder (mkReader [x05; x06] None) 4).
Proof.
  apply (ReadAt_backward_refused (mkDiscarder (mkReader [x05; x06] None) 4)
                                 1 3).
  - lia.
  - cbn. lia.
  - cbn. vm_compute. discriminate.
Defined.

(** ** The compression sniffer *)

Lemma bytes_Equal_eq (a b : list byte) : bytes_Equal a b = true <-> a = b.
Proof.
  revert b. induction a as [|x a IH]; intros [|y b]; cbn; split;
    try congruence; try reflexivity.
  - intros H. apply andb_prop in H as [H1 H2].
    apply byte_dec_bl in H1. apply IH in H2. congruence.
  - intros H. injection H as -> ->.
    rewrite byte_dec_lb by reflexivity. apply IH. reflexivity.
Qed.

Lemma classify_XZ (m : list byte) : classify m = XZ <-> m = xz_magic.
Proof.
  unfold classify. rewrite <- bytes_Equal_eq.
  destruct (bytes_Equal m xz_magic); [tauto|].
  destruct (bytes_Equal m zstd_magic); split; discriminate.
Qed.

Lemma classify_ZSTD (m : list byte) : classify m = ZSTD <-> m = zstd_magic.
Proof.
  unfold classify. destruct (bytes_Equal m xz_magic) eqn:Hx.
  - apply bytes_Equal_eq in Hx. subst m. split; discriminate.
  - rewrite <- bytes_Equal_eq.
    destruct (bytes_Equal m zstd_magic); split; congruence.
Qed.

Lemma classify_NONE (m : list byte) :
  classify m = NONE <-> m <> xz_magic /\ m <> zstd_magic.
Proof.
  rewrite <- classify_XZ, <- classify_ZSTD.
  destruct (classify m); split; try intros [? ?]; try split; congruence.
Qed.

Section SnifferFacts.
Context {L : Libs}.

(** The older [run] sniffs like [decompressingReadCloser], without the
    release function. *)
Lemma Legacy_sniff_agrees (in_ : Reader) (t : trace) :
  Legacy.sniff in_ t
  = (match fst (decompressingReadCloser in_ t) with
     | inl e => inl e
     | inr (rdr, _) => inr rdr
     end,
     snd (decompressingReadCloser in_ t)).
Proof.
  unfold Legacy.sniff, decompressingReadCloser.
  destruct (Peek in_ 4) as [e|magic]; [reflexivity|].
  destruct (classify magic); [reflexivity | |].
  - destruct (xz_NewReader in_); reflexivity.
  - destruct (zstd_NewReader in_); reflexivity.
Qed.

(** C6: on a reader with at least four bytes the sniffer builds the XZ
    reader exactly when the first four bytes are FD 37 7A 58, the Zstandard
    decoder exactly when they are 28 B5 2F FD, and otherwise hands back the
    reader it was given, with all its bytes, and an empty release
    function; the older [run] chooses its reader in the same way. *)
Theorem decompressingReadCloser_dispatch (in_ : Reader) (t : trace) :
  (4 <= length (data in_))%nat ->
  let magic := firstn 4 (data in_) in
  (classify magic = XZ <-> magic = xz_magic)
  /\ (classify magic = ZSTD <-> magic = zstd_magic)
  /\ (magic = xz_magic ->
      decompressingReadCloser in_ t
      = match xz_NewReader in_ with
        | inl e => (inl e, t)
        | inr reader => (inr (reader, nop), t)
        end)
  /\ (magic = zstd_magic ->
      decompressingReadCloser in_ t
      = match zstd_NewReader in_ with
        | inl e => (inl e, t)
        | inr decoder => (inr (decoder, decoder_Close in_), t ++ [Opened in_])
        end)
  /\ (magic <> xz_magic -> magic <> zstd_magic ->
      decompressingReadCloser in_ t = (inr (in_, nop), t)
      /\ Legacy.sniff in_ t = (inr in_, t))
  /\ Legacy.sniff in_ t
     = (match fst (decompressingReadCloser in_ t) with
        | inl e => inl e
        | inr (rdr, _) => inr rdr
        end,
        snd (decompressingReadCloser in_ t)).
Proof.
  intros Hlen magic.
  assert (Hpeek : Peek in_ 4 = inr magic).
  { unfold Peek. apply Nat.leb_le in Hlen. rewrite Hlen. reflexivity. }
  split; [apply classify_XZ|]. split; [apply classify_ZSTD|].
  split; [|split; [|split; [|apply Legacy_sniff_agrees]]].
  - intros H. apply classify_XZ in H.
    unfold decompressingReadCloser. rewrite Hpeek, H. reflexivity.
  - intros H. apply classify_ZSTD in H.
    unfold decompressingReadCloser. rewrite Hpeek, H. reflexivity.
  - intros H1 H2.
    assert (H : classify magic = NONE) by (apply classify_NONE; tauto).
    unfold decompressingReadCloser, Legacy.sniff. rewrite Hpeek, H.
    split; reflexivity.
Qed.

(** With fewer than four bytes the sniffer fails with the reader's error. *)
Lemma decompressingReadCloser_short (in_ : Reader) (t : trace) :
  (length (data in_) < 4)%nat ->
  decompressingReadCloser in_ t = (inl (end_err in_), t).
Proof.
  intros Hlen. unfold decompressingReadCloser, Peek.
  destruct (4 <=? length (data in_))%nat eqn:H;
    [apply Nat.leb_le in H; lia | reflexivity].
Qed.

End SnifferFacts.

Lemma decompressingReadCloser_dispatch_witness :
  decompressingReadCloser (L := Demo.libs)
    (mkReader (Demo.newc_magic ++ [x00]) None) []
  = (inr (mkReader (Demo.newc_magic ++ [x00]) None, nop), [])
  /\ Legacy.sniff (L := Demo.libs)
       (mkReader (Demo.newc_magic ++ [x00]) None) []
     = (inr (mkReader (Demo.newc_magic ++ [x00]) None), []).
Proof.
  apply (decompressingReadCloser_dispatch (L := Demo.libs)
           (mkReader (Demo.newc_magic ++ [x00]) None) []).
  - cbn. lia.
  - vm_compute. discriminate.
  - vm_compute. discriminate.
Defined.

(** ** The member decoder *)

Lemma index_last {A : Type} (front : list A) (l : A) :
  index (front ++ [l]) (Z.of_nat (length (front ++ [l])) - 1) = Some l.
Proof.
  unfold index. rewrite length_app. cbn [length].
  destruct ((Z.of_nat (length front + 1) - 1 <? 0)
            || (Z.of_nat (length front + 1) <=? Z.of_nat (length front + 1) - 1))
    eqn:H.
  - apply orb_prop in H as [H|H];
      [apply Z.ltb_lt in H | apply Z.leb_le in H]; lia.
  - replace (Z.to_nat (Z.of_nat (length front + 1) - 1)) with (length front)
      by lia.
    rewrite nth_error_app2 by lia. rewrite Nat.sub_diag. reflexivity.
Qed.

Section DecoderFacts.
Context {L : Libs}.

(** C1: when the member's bytes decode to a document whose layers end in the
    layer [l], [parseRawFromExtensions] returns the extra-info text of [l],
    whatever the layers before it hold; the older [run] logs and reports the
    same text. *)
Theorem parseRawFromExtensions_last (base n : Z) (d : discarder)
  (cfg : Config) (front : list Layer) (l : Layer) :
  yaml_Decode (fst (read_section d base n)) (snd (read_section d base n))
  = inr cfg ->
  Layers cfg = front ++ [l] ->
  parseRawFromExtensions (SectionReader base n) d = Ok (ExtraInfo (Metadata l))
  /\ forall name t,
       Legacy.found (mkRecord name (SectionReader base n)) d t
       = (Ok (ExtraInfo (Metadata l)), t ++ [LogRaw (ExtraInfo (Metadata l))]).
Proof.
  intros Hdec Hl. unfold parseRawFromExtensions, Legacy.found.
  cbn [ReaderAt].
  destruct (read_section d base n) as [bytes rerr]. cbn [fst snd] in Hdec.
  rewrite Hdec, Hl, index_last.
  split; [|reflexivity].
  rewrite length_app. cbn [length].
  destruct (Z.of_nat (length front + 1) =? 0) eqn:H;
    [apply Z.eqb_eq in H; lia | reflexivity].
Qed.

(** The newer decoder answers a document without layers with its dedicated
    error. *)
Lemma parseRawFromExtensions_no_layers (base n : Z) (d : discarder)
  (cfg : Config) :
  yaml_Decode (fst (read_section d base n)) (snd (read_section d base n))
  = inr cfg ->
  Layers cfg = [] ->
  parseRawFromExtensions (SectionReader base n) d = Err ErrNoLayers.
Proof.
  intros Hdec Hl. unfold parseRawFromExtensions.
  destruct (read_section d base n) as [bytes rerr]. cbn [fst snd] in Hdec.
  rewrite Hdec, Hl. reflexivity.
Qed.

(** The older [run] indexes the empty slice and panics. *)
Lemma Legacy_found_no_layers (name : string) (base n : Z) (d : discarder)
  (t : trace) (cfg : Config) :
  yaml_Decode (fst (read_section d base n)) (snd (read_section d base n))
  = inr cfg ->
  Layers cfg = [] ->
  Legacy.found (mkRecord name (SectionReader base n)) d t = (Panic, t).
Proof.
  intros Hdec Hl. unfold Legacy.found. cbn [ReaderAt].
  destruct (read_section d base n) as [bytes rerr]. cbn [fst snd] in Hdec.
  rewrite Hdec, Hl. reflexivity.
Qed.

End DecoderFacts.

(** ** The extraction driver *)

Section DriverFacts.
Context {L : Libs}.

(** *** More fuel does not change a finished run *)

Lemma records_loop_mono (fuel : nat) :
  forall c d t x, records_loop fuel c d t = Some x ->
  forall fuel', (fuel <= fuel')%nat -> records_loop fuel' c d t = Some x.
Proof.
  induction fuel as [|fuel IH]; intros c d t x H fuel' Hle; [discriminate|].
  destruct fuel' as [|fuel']; [lia|]. cbn [records_loop] in *.
  destruct (ReadRecord c d) as [[[e|rec] c1] d1]; [exact H|].
  destruct (String.eqb (Name rec) extensionsYAMLFileName); [exact H|].
  apply IH with (fuel' := fuel') in H; [exact H | lia].
Qed.

Lemma layers_loop_mono (fuel : nat) :
  forall reader cfs t x, layers_loop fuel reader cfs t = Some x ->
  forall fuel', (fuel <= fuel')%nat -> layers_loop fuel' reader cfs t = Some x.
Proof.
  induction fuel as [|fuel IH]; intros reader cfs t x H fuel' Hle;
    [discriminate|].
  destruct fuel' as [|fuel']; [lia|]. cbn [layers_loop] in *.
  destruct (decompressingReadCloser reader t) as [[e|[dec cf]] t1];
    [exact H|].
  destruct (records_loop fuel Newc_Reader (new_discarder dec) t1)
    as [[o t2]|] eqn:Hin; [|discriminate].
  rewrite (records_loop_mono fuel _ _ _ _ Hin fuel') by lia.
  destruct o as [d1|res]; [|exact H].
  destruct (eatPadding (r d1)) as [[e|] reader1]; [exact H|].
  apply IH with (fuel' := fuel') in H; [exact H | lia].
Qed.

Lemma extractRawSchematic_mono (fuel : nat) (reader : Reader)
  (x : result string * trace) :
  extractRawSchematic fuel reader = Some x ->
  forall fuel', (fuel <= fuel')%nat -> extractRawSchematic fuel' reader = Some x.
Proof.
  unfold extractRawSchematic. intros H fuel' Hle.
  destruct (layers_loop fuel reader [] []) as [[[res cfs] t]|] eqn:Hl;
    [|discriminate].
  rewrite (layers_loop_mono fuel _ _ _ _ Hl fuel' Hle). exact H.
Qed.

(** *** Following the iterator *)

Lemma records_loop_skips c d recs c2 d2 :
  skips c d recs c2 d2 ->
  forall fuel t,
    records_loop (length recs + fuel) c d t
    = records_loop fuel c2 d2 (t ++ found_lines recs).
Proof.
  induction 1 as [c d|c d rec c1 d1 recs c2 d2 Hrd Hname _ IH];
    intros fuel t.
  - cbn. rewrite app_nil_r. reflexivity.
  - cbn [length Nat.add records_loop]. rewrite Hrd.
    apply String.eqb_neq in Hname. rewrite Hname.
    rewrite IH. cbn [found_lines map]. rewrite <- app_assoc. reflexivity.
Qed.

Lemma passes_run reader t reader' closeF t' :
  passes reader t reader' closeF t' ->
  forall fuel cfs x,
    layers_loop fuel reader' (cfs ++ [closeF]) t' = Some x ->
    exists fuel', layers_loop fuel' reader cfs t = Some x.
Proof.
  intros [reader0 t0 dec cf t1 recs c2 d2 err c3 d3 reader1
          Hsniff Hskip Hrd Heof Hpad] fuel cfs x Hrun.
  exists (S (length recs + S fuel)). cbn [layers_loop].
  rewrite Hsniff, (records_loop_skips _ _ _ _ _ Hskip).
  cbn [records_loop]. rewrite Hrd, Heof, Hpad.
  apply (layers_loop_mono fuel _ _ _ _ Hrun). lia.
Qed.

Lemma passes_all_run reader cfs t reader' cfs' t' :
  passes_all reader cfs t reader' cfs' t' ->
  forall fuel x,
    layers_loop fuel reader' cfs' t' = Some x ->
    exists fuel', layers_loop fuel' reader cfs t = Some x.
Proof.
  induction 1 as [|reader cfs t reader1 cf t1 reader2 cfs2 t2 Hp _ IH];
    intros fuel x Hrun.
  - exists fuel. exact Hrun.
  - destruct (IH fuel x Hrun) as [fuel1 H1].
    exact (passes_run _ _ _ _ _ Hp fuel1 cfs x H1).
Qed.

(** A finished loop finishes [extractRawSchematic] for every larger fuel. *)
Lemma layers_loop_extract reader fuel res cfs t :
  layers_loop fuel reader [] [] = Some (res, cfs, t) ->
  exists fuel0, forall fuel', (fuel0 <= fuel')%nat ->
    extractRawSchematic fuel' reader = Some (res, run_closeFuncs cfs t).
Proof.
  intros H. exists fuel. intros fuel' Hle. unfold extractRawSchematic.
  rewrite (layers_loop_mono fuel _ _ _ _ H fuel' Hle). reflexivity.
Qed.

(** *** What the log of skipped layers holds *)

Lemma found_lines_no_member c d recs c2 d2 :
  skips c d recs c2 d2 ->
  ~ In (LogFound extensionsYAMLFileName) (found_lines recs).
Proof.
  induction 1 as [|c d rec c1 d1 recs c2 d2 _ Hname _ IH]; cbn.
  - tauto.
  - intros [H|H]; [injection H as H; contradiction | contradiction].
Qed.

Lemma decompressingReadCloser_log reader t x t1 (ev : event) :
  decompressingReadCloser reader t = (x, t1) ->
  (forall src, ev <> Opened src) ->
  In ev t1 -> In ev t.
Proof.
  unfold decompressingReadCloser. intros H Hev Hin.
  destruct (Peek reader 4) as [e|magic]; [congruence|].
  destruct (classify magic).
  - congruence.
  - destruct (xz_NewReader reader); congruence.
  - destruct (zstd_NewReader reader); [congruence|].
    injection H as _ <-. apply in_app_or in Hin as [Hin|[Hin|[]]];
      [exact Hin | symmetry in Hin; destruct (Hev _ Hin)].
Qed.

Lemma passes_all_no_member reader cfs t reader' cfs' t' :
  passes_all reader cfs t reader' cfs' t' ->
  In (LogFound extensionsYAMLFileName) t' ->
  In (LogFound extensionsYAMLFileName) t.
Proof.
  induction 1 as [|reader cfs t reader1 cf t1 reader2 cfs2 t2 Hp _ IH];
    intros Hin; [exact Hin|].
  apply IH in Hin.
  destruct Hp as [reader0 t0 dec cf0 t1 recs c2 d2 err c3 d3 reader1
                  Hsniff Hskip Hrd Heof Hpad].
  apply in_app_or in Hin as [Hin|Hin].
  - eapply decompressingReadCloser_log; [exact Hsniff | discriminate | exact Hin].
  - destruct (found_lines_no_member _ _ _ _ _ Hskip Hin).
Qed.

(** *** The older driver follows the iterator in the same way *)

Lemma Legacy_records_loop_mono (fuel : nat) :
  forall c d t x, Legacy.records_loop fuel c d t = Some x ->
  forall fuel', (fuel <= fuel')%nat -> Legacy.records_loop fuel' c d t = Some x.
Proof.
  induction fuel as [|fuel IH]; intros c d t x H fuel' Hle; [discriminate|].
  destruct fuel' as [|fuel']; [lia|]. cbn [Legacy.records_loop] in *.
  destruct (ReadRecord c d) as [[[e|rec] c1] d1]; [exact H|].
  destruct (String.eqb (Name rec) "extensions.yaml"); [exact H|].
  apply IH with (fuel' := fuel') in H; [exact H | lia].
Qed.

Lemma Legacy_run_mono (fuel : nat) :
  forall in_ t x, Legacy.run fuel in_ t = Some x ->
  forall fuel', (fuel <= fuel')%nat -> Legacy.run fuel' in_ t = Some x.
Proof.
  induction fuel as [|fuel IH]; intros in_ t x H fuel' Hle; [discriminate|].
  destruct fuel' as [|fuel']; [lia|]. cbn [Legacy.run] in *.
  destruct (Legacy.sniff in_ t) as [[e|in1] t1]; [exact H|].
  destruct (Legacy.records_loop fuel Newc_Reader (new_discarder in1) t1)
    as [[o t2]|] eqn:Hin; [|discriminate].
  rewrite (Legacy_records_loop_mono fuel _ _ _ _ Hin fuel') by lia.
  destruct o as [d1|res]; [|exact H].
  destruct (eatPadding (r d1)) as [[e|] in2]; [exact H|].
  apply IH with (fuel' := fuel') in H; [exact H | lia].
Qed.

Lemma Legacy_records_loop_skips c d recs c2 d2 :
  skips c d recs c2 d2 ->
  forall fuel t,
    Legacy.records_loop (length recs + fuel) c d t
    = Legacy.records_loop fuel c2 d2 (t ++ found_lines recs).
Proof.
  induction 1 as [c d|c d rec c1 d1 recs c2 d2 Hrd Hname _ IH];
    intros fuel t.
  - cbn. rewrite app_nil_r. reflexivity.
  - cbn [length Nat.add Legacy.records_loop]. rewrite Hrd.
    apply String.eqb_neq in Hname.
    change "extensions.yaml"%string with extensionsYAMLFileName.
    rewrite Hname, IH. cbn [found_lines map]. rewrite <- app_assoc.
    reflexivity.
Qed.

Lemma Legacy_sniff_ok reader t dec closeF t1 :
  decompressingReadCloser reader t = (inr (dec, closeF), t1) ->
  Legacy.sniff reader t = (inr dec, t1).
Proof.
  intros H. unfold Legacy.sniff. unfold decompressingReadCloser in H.
  destruct (Peek reader 4) as [e|magic]; [discriminate|].
  destruct (classify magic).
  - injection H as <- _ <-. reflexivity.
  - destruct (xz_NewReader reader); [discriminate|].
    injection H as <- _ <-. reflexivity.
  - destruct (zstd_NewReader reader); [discriminate|].
    injection H as <- _ <-. reflexivity.
Qed.

Lemma Legacy_passes_all_run reader cfs t reader' cfs' t' :
  passes_all reader cfs t reader' cfs' t' ->
  forall fuel x,
    Legacy.run fuel reader' t' = Some x ->
    exists fuel', Legacy.run fuel' reader t = Some x.
Proof.
  induction 1 as [|reader cfs t reader1 cf t1 reader2 cfs2 t2 Hp _ IH];
    intros fuel x Hrun.
  - exists fuel. exact Hrun.
  - destruct (IH fuel x Hrun) as [fuel1 H1].
    destruct Hp as [reader0 t0 dec cf0 t3 recs c2 d2 err c3 d3 reader3
                    Hsniff Hskip Hrd Heof Hpad].
    exists (S (length recs + S fuel1)). cbn [Legacy.run].
    rewrite (Legacy_sniff_ok _ _ _ _ _ Hsniff).
    rewrite (Legacy_records_loop_skips _ _ _ _ _ Hskip).
    cbn [Legacy.records_loop]. rewrite Hrd, Heof, Hpad.
    apply (Legacy_run_mono fuel1 _ _ _ H1). lia.
Qed.


(** C3, as amended: when every layer ends without a record named
    extensions.yaml and the padding after the last one runs to a clean end
    of input, the driver terminates with the failure io.EOF, the error of
    the sniffer's four-byte peek. *)
Theorem extractRawSchematic_exhausted reader reader' cfs t :
  passes_all reader [] [] reader' cfs t ->
  data reader' = [] ->
  is_EOF (end_err reader') = true ->
  exists fuel0, forall fuel', (fuel0 <= fuel')%nat ->
    extractRawSchematic fuel' reader = Some (Err EOF, run_closeFuncs cfs t).
Proof.
  intros Hall Hdata Heof.
  assert (Hlast : layers_loop 1 reader' cfs t = Some (Err EOF, cfs, t)).
  { cbn [layers_loop].
    rewrite decompressingReadCloser_short by (rewrite Hdata; cbn; lia).
    destruct (end_err reader'); try discriminate. reflexivity. }
  destruct (passes_all_run _ _ _ _ _ _ Hall _ _ Hlast) as [fuel Hrun].
  exact (layers_loop_extract _ _ _ _ _ Hrun).
Qed.

End DriverFacts.

(** ** Releasing the decoders *)

Lemma opened_app (t1 t2 : trace) : opened (t1 ++ t2) = opened t1 ++ opened t2.
Proof.
  induction t1 as [|ev t1 IH]; [reflexivity|].
  destruct ev; cbn; rewrite IH; reflexivity.
Qed.

Lemma closed_app (t1 t2 : trace) : closed (t1 ++ t2) = closed t1 ++ closed t2.
Proof.
  induction t1 as [|ev t1 IH]; [reflexivity|].
  destruct ev; cbn; rewrite IH; reflexivity.
Qed.

Lemma closes_app (c1 c2 : list closeFunc) :
  closes (c1 ++ c2) = closes c1 ++ closes c2.
Proof.
  induction c1 as [|c c1 IH]; [reflexivity|].
  destruct c; cbn; rewrite IH; reflexivity.
Qed.

Lemma opened_Closed (hs : list Reader) : opened (map Closed hs) = [].
Proof. induction hs; [reflexivity | exact IHhs]. Qed.

Lemma closed_Closed (hs : list Reader) : closed (map Closed hs) = hs.
Proof. induction hs as [|h hs IH]; [reflexivity | cbn; rewrite IH; reflexivity]. Qed.

(** The deferred loop closes the registered decoders from the first to the
    last. *)
Lemma run_closeFuncs_trace (cfs : list closeFunc) (t : trace) :
  run_closeFuncs cfs t = t ++ map Closed (closes cfs).
Proof.
  unfold run_closeFuncs. revert t.
  induction cfs as [|c cfs IH]; intros t; cbn [fold_left closes].
  - cbn. rewrite app_nil_r. reflexivity.
  - rewrite IH. destruct c; cbn [call closes map]; [reflexivity|].
    rewrite <- app_assoc. reflexivity.
Qed.

Section ReleaseFacts.
Context {L : Libs}.

Lemma records_loop_events (fuel : nat) :
  forall c d t o t', records_loop fuel c d t = Some (o, t') ->
  opened t' = opened t /\ closed t' = closed t.
Proof.
  induction fuel as [|fuel IH]; intros c d t o t' H; [discriminate|].
  cbn [records_loop] in H.
  destruct (ReadRecord c d) as [[[e|rec] c1] d1].
  - destruct (is_EOF e); injection H as _ <-; split; reflexivity.
  - destruct (String.eqb (Name rec) extensionsYAMLFileName).
    + injection H as _ <-. rewrite opened_app, closed_app. cbn.
      rewrite !app_nil_r. split; reflexivity.
    + apply IH in H. rewrite opened_app, closed_app in H. cbn in H.
      rewrite !app_nil_r in H. exact H.
Qed.

Lemma decompressingReadCloser_events reader t dec cf t1 :
  decompressingReadCloser reader t = (inr (dec, cf), t1) ->
  opened t1 = opened t ++ closes [cf] /\ closed t1 = closed t.
Proof.
  unfold decompressingReadCloser. intros H.
  destruct (Peek reader 4) as [e|magic]; [discriminate|].
  destruct (classify magic).
  - injection H as _ <- <-. cbn. rewrite app_nil_r. split; reflexivity.
  - destruct (xz_NewReader reader); [discriminate|].
    injection H as _ <- <-. cbn. rewrite app_nil_r. split; reflexivity.
  - destruct (zstd_NewReader reader); [discriminate|].
    injection H as _ <- <-. rewrite opened_app, closed_app. cbn.
    rewrite app_nil_r. split; reflexivity.
Qed.

Lemma decompressingReadCloser_failed reader t e t1 :
  decompressingReadCloser reader t = (inl e, t1) -> t1 = t.
Proof.
  unfold decompressingReadCloser. intros H.
  destruct (Peek reader 4) as [e0|magic]; [congruence|].
  destruct (classify magic).
  - discriminate.
  - destruct (xz_NewReader reader); [congruence | discriminate].
  - destruct (zstd_NewReader reader); [congruence | discriminate].
Qed.

(** What the loop registers is what it opened, in that order, and the loop
    itself closes nothing. *)
Lemma layers_loop_events (fuel : nat) :
  forall reader cfs t res cfs' t',
    layers_loop fuel reader cfs t = Some (res, cfs', t') ->
    closes cfs = opened t -> closed t = [] ->
    closes cfs' = opened t' /\ closed t' = [].
Proof.
  induction fuel as [|fuel IH]; intros reader cfs t res cfs' t' H Hop Hcl;
    [discriminate|].
  cbn [layers_loop] in H.
  destruct (decompressingReadCloser reader t) as [[e|[dec cf]] t1] eqn:Hs.
  - apply decompressingReadCloser_failed in Hs. subst t1.
    injection H as _ <- <-. split; assumption.
  - apply decompressingReadCloser_events in Hs as [Ho1 Hc1].
    destruct (records_loop fuel Newc_Reader (new_discarder dec) t1)
      as [[o t2]|] eqn:Hin; [|discriminate].
    apply records_loop_events in Hin as [Ho2 Hc2].
    assert (Hreg : closes (cfs ++ [cf]) = opened t2)
      by (rewrite closes_app, Ho2, Ho1, Hop; reflexivity).
    assert (Hnone : closed t2 = []) by congruence.
    destruct o as [d1|res0].
    + destruct (eatPadding (r d1)) as [[e|] reader1].
      * injection H as _ <- <-. split; assumption.
      * exact (IH _ _ _ _ _ _ H Hreg Hnone).
    + injection H as _ <- <-. split; assumption.
Qed.

(** C10, as amended: when the driver terminates, with a result or an error,
    every decoder opened during the run is closed exactly once, after the
    loop has ended, and the decoders are closed in the order in which they
    were opened (the first opened is closed first). *)
Theorem extractRawSchematic_releases (fuel : nat) (reader : Reader)
  (res : result string) (t : trace) :
  extractRawSchematic fuel reader = Some (res, t) ->
  closed t = opened t
  /\ exists t0, t = t0 ++ map Closed (opened t0) /\ closed t0 = [].
Proof.
  unfold extractRawSchematic. intros H.
  destruct (layers_loop fuel reader [] []) as [[[res0 cfs] t0]|] eqn:Hl;
    [|discriminate].
  injection H as _ <-.
  destruct (layers_loop_events _ _ _ _ _ _ _ Hl eq_refl eq_refl) as [Ho Hc].
  rewrite run_closeFuncs_trace, Ho. split.
  - rewrite closed_app, opened_app, Hc, closed_Closed, opened_Closed.
    rewrite app_nil_r. reflexivity.
  - exists t0. split; [reflexivity | exact Hc].
Qed.

End ReleaseFacts.

(** ** Termination *)

Lemma advance_advance (j k : nat) (rd : Reader) :
  advance k (advance j rd) = advance (k + j) rd.
Proof. unfold advance; cbn. rewrite skipn_skipn. reflexivity. Qed.

Lemma advance_length (k : nat) (rd : Reader) :
  (length (data (advance k rd)) <= length (data rd))%nat.
Proof. unfold advance; cbn. rewrite length_skipn. lia. Qed.

Lemma eatPadding_bytes_skipn (bs : list byte) :
  exists k, eatPadding_bytes bs = skipn k bs.
Proof.
  induction bs as [|b bs [k IH]].
  - exists 0%nat. reflexivity.
  - cbn. destruct (Byte.eqb b x00).
    + exists (S k). exact IH.
    + exists 0%nat. reflexivity.
Qed.

Lemma eatPadding_advance (rd rd' : Reader) (e : option error) :
  eatPadding rd = (e, rd') -> exists k, rd' = advance k rd.
Proof.
  unfold eatPadding. intros H.
  destruct (eatPadding_bytes_skipn (data rd)) as [k Hk].
  exists k. unfold advance. rewrite <- Hk.
  destruct (eatPadding_bytes (data rd)); injection H as _ <-; reflexivity.
Qed.

Section Termination.
Context {L : Libs}.
Hypothesis iterator_ok : iterator_consumes.

(** The inner loop ends; when it breaks, the reader has only advanced, and
    has advanced properly unless it was empty from the start. *)
Lemma records_loop_terminates (n : nat) :
  forall c d t, (length (data (r d)) < n)%nat ->
  exists fuel o t', records_loop fuel c d t = Some (o, t')
    /\ match o with
       | Break d' =>
           (exists k, r d' = advance k (r d))
           /\ (data (r d) <> [] ->
               (length (data (r d')) < length (data (r d)))%nat)
       | Return _ => True
       end.
Proof.
  induction n as [|n IH]; intros c d t Hlen; [lia|].
  destruct (ReadRecord c d) as [[[e|rec] c1] d1] eqn:Hrd.
  - destruct (iterator_ok _ _ _ _ _ Hrd) as [Hadv Hprog].
    destruct (is_EOF e) eqn:He.
    + exists 1%nat, (Break d1), t. cbn [records_loop]. rewrite Hrd, He.
      split; [reflexivity|]. split; [exact Hadv|].
      intros Hne. apply Hprog. split; [reflexivity | exact Hne].
    + exists 1%nat, (Return (Err e)), t. cbn [records_loop]. rewrite Hrd, He.
      split; [reflexivity | exact I].
  - destruct (String.eqb (Name rec) extensionsYAMLFileName) eqn:Hn.
    + exists 1%nat. eexists. eexists. cbn [records_loop]. rewrite Hrd, Hn.
      split; [reflexivity | exact I].
    + destruct (iterator_ok _ _ _ _ _ Hrd) as [[k1 Hk1] Hprog].
      pose proof (Hprog I) as Hlt.
      destruct (IH c1 d1 (t ++ [LogFound (Name rec)]))
        as (fuel & o & t' & Hrun & Ho); [lia|].
      exists (S fuel), o, t'. cbn [records_loop]. rewrite Hrd, Hn.
      split; [exact Hrun|].
      destruct o as [d'|res]; [|exact I].
      destruct Ho as [[k Hk] _]. split.
      * exists (k + k1)%nat. rewrite Hk, Hk1. apply advance_advance.
      * intros _. rewrite Hk.
        pose proof (advance_length k (r d1)). lia.
Qed.

(** Where the reader of a layer comes from: it is the reader that was
    sniffed, which then has bytes and no known magic, or a codec delivered
    it for that reader. *)
Lemma decompressingReadCloser_reader reader t dec cf t1 :
  decompressingReadCloser reader t = (inr (dec, cf), t1) ->
  (dec = reader /\ data reader <> []
   /\ classify (firstn 4 (data reader)) = NONE)
  \/ (classify (firstn 4 (data reader)) <> NONE
      /\ (xz_NewReader reader = inr dec \/ zstd_NewReader reader = inr dec)).
Proof.
  unfold decompressingReadCloser, Peek. intros H.
  destruct (4 <=? length (data reader))%nat eqn:Hp; [|discriminate].
  destruct (classify (firstn 4 (data reader))).
  - injection H as <- _ _. left. split; [reflexivity|].
    split; [|reflexivity]. apply Nat.leb_le in Hp.
    destruct (data reader); [cbn in Hp; lia | discriminate].
  - destruct (xz_NewReader reader) eqn:Hx; [discriminate|].
    injection H as <- _ _. right. split; [discriminate | left; reflexivity].
  - destruct (zstd_NewReader reader) eqn:Hz; [discriminate|].
    injection H as <- _ _. right. split; [discriminate | right; reflexivity].
Qed.

Lemma advance_0 (rd : Reader) : rd = advance 0 rd.
Proof. destruct rd. reflexivity. Qed.

Lemma skips_advance c d recs c2 d2 :
  skips c d recs c2 d2 ->
  (exists k, r d2 = advance k (r d))
  /\ (recs <> [] -> (length (data (r d2)) < length (data (r d)))%nat).
Proof.
  induction 1 as [c d|c d rec c1 d1 recs c2 d2 Hr _ _ [[k Hk] _]].
  - split; [exists 0%nat; apply advance_0 | congruence].
  - destruct (iterator_ok _ _ _ _ _ Hr) as [[k1 Hk1] Hprog].
    pose proof (Hprog I) as Hlt.
    split.
    + exists (k + k1)%nat. rewrite Hk, Hk1. apply advance_advance.
    + intros _. rewrite Hk. pose proof (advance_length k (r d1)). lia.
Qed.

(** A turn of the outer loop that goes on to the next layer: on a layer
    without a known magic it leaves the reader it found, less at least one
    byte; on a compressed layer it leaves what is left of the codec's
    output. *)
Lemma passes_progress reader t reader' closeF t' :
  passes reader t reader' closeF t' ->
  (classify (firstn 4 (data reader)) = NONE
   /\ (exists k, reader' = advance k reader)
   /\ (length (data reader') < length (data reader))%nat)
  \/ (classify (firstn 4 (data reader)) <> NONE
      /\ exists dec k,
           (xz_NewReader reader = inr dec \/ zstd_NewReader reader = inr dec)
           /\ reader' = advance k dec).
Proof.
  intros [reader0 t0 dec cf t1 recs c2 d2 err c3 d3 reader1
          Hsniff Hskip Hrd Heof Hpad].
  destruct (skips_advance _ _ _ _ _ Hskip) as [[k2 Hk2] Hskipped].
  cbn [r new_discarder] in Hk2, Hskipped.
  destruct (iterator_ok _ _ _ _ _ Hrd) as [[k3 Hk3] Hprog].
  destruct (eatPadding_advance _ _ _ Hpad) as [k4 Hk4].
  assert (Hrd1 : reader1 = advance (k4 + k3 + k2) dec)
    by (rewrite Hk4, Hk3, Hk2, !advance_advance; reflexivity).
  destruct (decompressingReadCloser_reader _ _ _ _ _ Hsniff)
    as [(-> & Hne & Hnone)|[Hsome Hcodec]].
  - left. split; [exact Hnone|]. split; [eexists; exact Hrd1|].
    assert (Hlt : (length (data (r d3)) < length (data reader0))%nat).
    { pose proof (advance_length k3 (r d2)) as H3. rewrite <- Hk3 in H3.
      pose proof (advance_length k2 reader0) as H2. rewrite <- Hk2 in H2.
      destruct recs as [|rec recs].
      - inversion Hskip; subst. cbn [r new_discarder] in *.
        apply Hprog. split; assumption.
      - assert (length (data (r d2)) < length (data reader0))%nat
          by (apply Hskipped; discriminate).
        lia. }
    rewrite Hk4. pose proof (advance_length k4 (r d3)). lia.
  - right. split; [exact Hsome|]. exists dec. eexists.
    split; [exact Hcodec | exact Hrd1].
Qed.

Lemma layers_loop_terminates (reader : Reader) :
  finitely_nested reader ->
  forall cfs t, exists fuel x, layers_loop fuel reader cfs t = Some x.
Proof.
  intros Hacc.
  assert (H : forall rd, Acc nested rd ->
              forall m j, (length (data (advance j rd)) < m)%nat ->
              forall cfs0 t0, exists fuel x,
                layers_loop fuel (advance j rd) cfs0 t0 = Some x).
  { induction 1 as [rd _ IHacc].
    induction m as [|m IHm]; [intros; lia|].
    intros j Hl cfs0 t0.
    destruct (decompressingReadCloser (advance j rd) t0)
      as [[e|[dec cf]] t1] eqn:Hs.
    - exists 1%nat. eexists. cbn [layers_loop]. rewrite Hs. reflexivity.
    - destruct (records_loop_terminates (S (length (data dec))) Newc_Reader
                  (new_discarder dec) t1) as (f1 & o & t2 & Hrun & Ho);
        [cbn; lia|].
      destruct o as [d1|res].
      + destruct Ho as [[k Hk] Hlt]. cbn [r new_discarder] in Hk, Hlt.
        destruct (eatPadding (r d1)) as [[e|] reader1] eqn:Hpad.
        * exists (S f1). eexists. cbn [layers_loop].
          rewrite Hs, Hrun, Hpad. reflexivity.
        * destruct (eatPadding_advance _ _ _ Hpad) as [k4 Hk4].
          assert (Hnext : exists fuel x,
                    layers_loop fuel reader1 (cfs0 ++ [cf]) t2 = Some x).
          { pose proof (advance_length k4 (r d1)) as H4. rewrite <- Hk4 in H4.
            assert (Hr1 : reader1 = advance (k4 + k) dec)
              by (rewrite Hk4, Hk, advance_advance; reflexivity).
            destruct (decompressingReadCloser_reader _ _ _ _ _ Hs)
              as [(Hdec & Hne & _)|[_ Hcodec]].
            - subst dec. rewrite Hr1, advance_advance.
              apply IHm. rewrite <- advance_advance, <- Hr1.
              specialize (Hlt Hne). lia.
            - rewrite Hr1.
              apply (IHacc dec (ex_intro _ j Hcodec)
                       (S (length (data (advance (k4 + k) dec))))).
              apply Nat.lt_succ_diag_r. }
          destruct Hnext as (f2 & x & Hx).
          exists (S (Nat.max f1 f2)), x. cbn [layers_loop]. rewrite Hs.
          rewrite (records_loop_mono f1 _ _ _ _ Hrun) by lia.
          rewrite Hpad. apply (layers_loop_mono f2 _ _ _ _ Hx). lia.
      + exists (S f1). eexists. cbn [layers_loop]. rewrite Hs, Hrun.
        reflexivity. }
  intros cfs t.
  rewrite (advance_0 reader).
  apply (H reader Hacc (S (length (data (advance 0 reader))))). lia.
Qed.

End Termination.


(** ** The concrete instance meets the assumptions *)

Lemma io_ReadFull_advance (rd : Reader) (n : nat) got err rd' :
  io_ReadFull rd n = (got, err, rd') ->
  (exists k, rd' = advance k rd)
  /\ (err = None -> length got = n
      /\ (length (data rd') + n = length (data rd))%nat)
  /\ (forall e, err = Some e -> is_EOF e = true -> data rd = []).
Proof.
  unfold io_ReadFull. intros H.
  destruct (n <=? length (data rd))%nat eqn:Hn.
  - apply Nat.leb_le in Hn. injection H as <- <- <-.
    split; [eexists; reflexivity|]. split.
    + intros _. unfold advance; cbn.
      rewrite length_firstn, length_skipn. lia.
    + discriminate.
  - injection H as <- <- <-.
    split; [eexists; reflexivity|]. split; [discriminate|].
    intros e He Heof. injection He as <-.
    destruct (data rd); [reflexivity|].
    destruct (is_EOF (end_err rd)) eqn:H1; cbn in Heof; congruence.
Qed.

Lemma io_ReadFull_failed_empty (rd : Reader) (n : nat) got e rd' :
  io_ReadFull rd n = (got, Some e, rd') -> data rd' = [].
Proof.
  unfold io_ReadFull. intros H.
  destruct (n <=? length (data rd))%nat; [discriminate|].
  injection H as _ _ <-. unfold advance; cbn. apply skipn_all.
Qed.

Lemma io_Copy_Discard_Limit_advance (rd : Reader) (n i : Z) err rd' :
  io_Copy_Discard_Limit rd n = (i, err, rd') ->
  (exists k, rd' = advance k rd)
  /\ (forall e, err = Some e -> is_EOF e = false).
Proof.
  unfold io_Copy_Discard_Limit. intros H.
  destruct (n <=? 0).
  - injection H as _ <- <-. split; [exists 0%nat; apply advance_0 | discriminate].
  - destruct (n <=? Z.of_nat (length (data rd))).
    + injection H as _ <- <-. split; [eexists; reflexivity | discriminate].
    + injection H as _ <- <-. split; [eexists; reflexivity|].
      intros e He. destruct (is_EOF (end_err rd)) eqn:H1; congruence.
Qed.

(** [ReadAt] only consumes; it consumes something when it delivers a
    non-empty buffer in full, and when it reports io.EOF on a reader that
    had bytes. *)
Lemma ReadAt_advance (d : discarder) (n : nat) (off : Z) got err d' :
  ReadAt d n off = ((got, err), d') ->
  (exists k, r d' = advance k (r d))
  /\ (err = None -> length got = n -> (0 < n)%nat ->
      (length (data (r d')) < length (data (r d)))%nat)
  /\ (forall e, err = Some e -> is_EOF e = true -> data (r d) <> [] ->
      (length (data (r d')) < length (data (r d)))%nat).
Proof.
  unfold ReadAt.
  destruct (wrap64 (off - pos d) <? 0).
  { intros H. injection H as <- <- <-.
    split; [exists 0%nat; apply advance_0|].
    split; [discriminate|]. intros e He. injection He as <-. discriminate. }
  assert (Hfull : forall d1 : discarder,
    (exists k, r d1 = advance k (r d)) ->
    (let '(got0, err0, rd) := io_ReadFull (r d1) n in
     match err0 with
     | Some e => ((got0, Some e), mkDiscarder rd (pos d1))
     | None => ((got0, None),
                mkDiscarder rd (wrap64 (pos d1 + Z.of_nat (length got0))))
     end) = ((got, err), d') ->
    (exists k, r d' = advance k (r d))
    /\ (err = None -> length got = n -> (0 < n)%nat ->
        (length (data (r d')) < length (data (r d)))%nat)
    /\ (forall e, err = Some e -> is_EOF e = true -> data (r d) <> [] ->
        (length (data (r d')) < length (data (r d)))%nat)).
  { intros d1 [k1 Hk1] H.
    destruct (io_ReadFull (r d1) n) as [[got0 err0] rd] eqn:Hf.
    pose proof (advance_length k1 (r d)) as Hl1. rewrite <- Hk1 in Hl1.
    destruct (io_ReadFull_advance _ _ _ _ _ Hf) as ([k Hk] & Hok & Hbad).
    assert (Hsuf : exists k0, rd = advance k0 (r d))
      by (exists (k + k1)%nat; rewrite Hk, Hk1; apply advance_advance).
    destruct err0 as [e0|]; injection H as <- <- <-; cbn [r].
    - split; [exact Hsuf|]. split; [discriminate|].
      intros e He Heof Hne. injection He as <-.
      rewrite (io_ReadFull_failed_empty _ _ _ _ _ Hf). cbn.
      destruct (data (r d)); [contradiction | cbn; lia].
    - split; [exact Hsuf|]. split; [|discriminate].
      intros _ _ Hpos. destruct (Hok eq_refl) as [_ Hlen]. lia. }
  destruct (off =? pos d).
  - apply Hfull. exists 0%nat. apply advance_0.
  - destruct (io_Copy_Discard_Limit (r d) (wrap64 (off - pos d)))
      as [[i cerr] rd] eqn:Hc.
    destruct (io_Copy_Discard_Limit_advance _ _ _ _ _ Hc) as [Hk Hnot].
    destruct cerr as [e|].
    + intros H. injection H as <- <- <-. cbn [r].
      split; [exact Hk|]. split; [discriminate|].
      intros e0 He Heof. injection He as <-.
      rewrite (Hnot e eq_refl) in Heof. discriminate.
    + destruct (negb (i =? wrap64 (off - pos d))).
      * intros H. injection H as <- <- <-. cbn [r].
        split; [exact Hk|]. split; [|discriminate].
        intros _ Hlen Hpos. cbn in Hlen. lia.
      * apply Hfull. exact Hk.
Qed.

Lemma Demo_read_advance (d : discarder) (p : Z) (n : nat) res d' :
  Demo.read d p n = (res, d') ->
  (exists k, r d' = advance k (r d))
  /\ (match res with
      | inr _ => (0 < n)%nat
      | inl e => is_EOF e = true /\ data (r d) <> []
      end -> (length (data (r d')) < length (data (r d)))%nat).
Proof.
  unfold Demo.read.
  destruct (ReadAt d n p) as [[got err] d1] eqn:Hr.
  destruct (ReadAt_advance _ _ _ _ _ _ Hr) as (Hk & Hok & Hbad).
  destruct err as [e|].
  - destruct (is_EOF e) eqn:He; intros H; injection H as <- <-.
    + split; [exact Hk|]. intros [_ Hne]. exact (Hbad e eq_refl He Hne).
    + split; [exact Hk|]. intros [Hf _]. discriminate.
  - destruct (length got =? n)%nat eqn:Hlen; intros H; injection H as <- <-.
    + apply Nat.eqb_eq in Hlen. split; [exact Hk|].
      intros Hpos. exact (Hok eq_refl Hlen Hpos).
    + split; [exact Hk|]. intros [Hf _]. discriminate.
Qed.

Lemma Demo_ReadRecord_advance (c : Z) (d : discarder) res c' d' :
  Demo.newc_ReadRecord c d = (res, c', d') ->
  (exists k, r d' = advance k (r d))
  /\ (match res with
      | inr _ => True
      | inl e => is_EOF e = true /\ data (r d) <> []
      end -> (length (data (r d')) < length (data (r d)))%nat).
Proof.
  unfold Demo.newc_ReadRecord.
  destruct (Demo.read d c 110) as [[e|[buf p1]] d1] eqn:H1.
  - intros H. injection H as <- _ <-.
    exact (Demo_read_advance _ _ _ _ _ H1).
  - destruct (Demo_read_advance _ _ _ _ _ H1) as [[k1 Hk1] Hlt1].
    assert (Hlt : (length (data (r d1)) < length (data (r d)))%nat)
      by (apply Hlt1; lia).
    assert (Hhere : forall res0 c0,
              (res0, c0, d1) = (res, c', d') ->
              (exists k, r d' = advance k (r d))
              /\ (match res with
                  | inr _ => True
                  | inl e => is_EOF e = true /\ data (r d) <> []
                  end -> (length (data (r d')) < length (data (r d)))%nat)).
    { intros res0 c0 H. injection H as _ _ <-.
      split; [exists k1; exact Hk1 | intros _; exact Hlt]. }
    destruct (negb (bytes_Equal (firstn 6 buf) Demo.newc_magic));
      [apply Hhere|].
    destruct (Demo.field buf 6) as [filesize|]; [|apply Hhere].
    destruct (Demo.field buf 11) as [namesize|]; [|apply Hhere].
    destruct (namesize =? 0); [apply Hhere|].
    destruct (Demo.read d1 p1 (Z.to_nat namesize)) as [[e|[nameBuf p2]] d2] eqn:H2;
      destruct (Demo_read_advance _ _ _ _ _ H2) as [[k2 Hk2] _];
      pose proof (advance_length k2 (r d1)) as Hl2; rewrite <- Hk2 in Hl2.
    + intros H. injection H as _ _ <-. split; [|intros _; lia].
      exists (k2 + k1)%nat. rewrite Hk2, Hk1. apply advance_advance.
    + destruct (String.eqb _ Demo.Trailer); intros H; injection H as _ _ <-;
        (split; [|intros _; lia]);
        exists (k2 + k1)%nat; rewrite Hk2, Hk1; apply advance_advance.
Qed.

Lemma Demo_stored_depth (rd rd' : Reader) :
  Demo.stored_NewReader rd = inr rd' ->
  (length (data rd') < length (data rd))%nat.
Proof.
  unfold Demo.stored_NewReader.
  destruct (4 <=? length (data rd))%nat eqn:H; [|discriminate].
  apply Nat.leb_le in H. intros E. injection E as <-.
  unfold advance; cbn [data]. rewrite length_skipn. lia.
Qed.

(** ** A document without layers *)

Section NoLayers.
Context {L : Libs}.

(** C4: an uncompressed artifact whose first record is named
    extensions.yaml and decodes to a document without layers.  The older
    [run] indexes the empty slice and panics; [extractRawSchematic] fails
    with the dedicated error. *)
Theorem Legacy_run_no_layers_panics (reader : Reader) (t : trace)
  (rec : cpio_Record) (c1 : cpio_reader) (d1 : discarder) (base n : Z)
  (cfg : Config) (fuel : nat) :
  (4 <= length (data reader))%nat ->
  classify (firstn 4 (data reader)) = NONE ->
  ReadRecord Newc_Reader (new_discarder reader) = (inr rec, c1, d1) ->
  Name rec = extensionsYAMLFileName ->
  ReaderAt rec = SectionReader base n ->
  yaml_Decode (fst (read_section d1 base n)) (snd (read_section d1 base n))
  = inr cfg ->
  Layers cfg = [] ->
  Legacy.run (S (S fuel)) reader t
  = Some (Panic, t ++ [LogFound (Name rec)])
  /\ extractRawSchematic (S (S fuel)) reader
     = Some (Err ErrNoLayers, [LogFound (Name rec)]).
Proof.
  intros Hlen Hcl Hrd Hname Hat Hdec Hl.
  assert (Hpeek : Peek reader 4 = inr (firstn 4 (data reader))).
  { unfold Peek. apply Nat.leb_le in Hlen. rewrite Hlen. reflexivity. }
  split.
  - cbn [Legacy.run Legacy.records_loop]. unfold Legacy.sniff.
    rewrite Hpeek, Hcl, Hrd.
    change "extensions.yaml"%string with extensionsYAMLFileName.
    rewrite Hname, String.eqb_refl.
    destruct rec as [name at_]. cbn [Name ReaderAt] in *. subst at_.
    rewrite (Legacy_found_no_layers _ _ _ _ _ _ Hdec Hl). reflexivity.
  - unfold extractRawSchematic. cbn [layers_loop records_loop].
    unfold decompressingReadCloser. rewrite Hpeek, Hcl, Hrd.
    rewrite Hname, String.eqb_refl, Hat.
    rewrite (parseRawFromExtensions_no_layers _ _ _ _ Hdec Hl). reflexivity.
Qed.

End NoLayers.

(** ** The statements on the sample artifacts *)

Section SampleFacts.
Import Demo Samples.

Lemma archive_finds :
  finds (L := Demo.libs) (bytes_Reader archive)
    (mkRecord "extensions.yaml" (SectionReader 252 11))
    (at_cursor archive None 250)
    [nop] [LogFound "a.txt"; LogFound "extensions.yaml"].
Proof.
  refine (finds_intro (L := Demo.libs)
            (bytes_Reader archive) (bytes_Reader archive) [] []
            (bytes_Reader archive) nop []
            [mkRecord "a.txt" (SectionReader 116 5)] 124
            (at_cursor archive None 116)
            (mkRecord "extensions.yaml" (SectionReader 252 11)) 264
            (at_cursor archive None 250) _ _ _ _ _).
  - apply passes_none.
  - vm_compute. reflexivity.
  - eapply skips_cons with (c1 := 124) (d1 := at_cursor archive None 116).
    + vm_compute. reflexivity.
    + vm_compute. discriminate.
    + apply skips_nil.
  - vm_compute. reflexivity.
  - reflexivity.
Qed.

Lemma no_member_passes :
  passes_all (L := Demo.libs) (bytes_Reader no_member) [] []
    (mkReader [] None) [nop] [LogFound "a.txt"].
Proof.
  eapply passes_more; [|apply passes_none].
  refine (passes_intro (L := Demo.libs)
            (bytes_Reader no_member) [] (bytes_Reader no_member) nop []
            [mkRecord "a.txt" (SectionReader 116 5)] 124
            (at_cursor no_member None 116) EOF 248
            (at_cursor no_member None 245) (mkReader [] None) _ _ _ _ _).
  - vm_compute. reflexivity.
  - eapply skips_cons with (c1 := 124) (d1 := at_cursor no_member None 116).
    + vm_compute. reflexivity.
    + vm_compute. discriminate.
    + apply skips_nil.
  - vm_compute. reflexivity.
  - reflexivity.
  - vm_compute. reflexivity.
Qed.

End SampleFacts.

Lemma string_length_append (a b : string) :
  String.length (a ++ b) = (String.length a + String.length b)%nat.
Proof. induction a as [|ch a IH]; cbn; [reflexivity | rewrite IH; reflexivity]. Qed.

Lemma EOF_not_reports_member : ~ reports_member EOF.
Proof.
  intros (pre & post & H). apply (f_equal String.length) in H.
  rewrite !string_length_append in H. cbn in H. lia.
Qed.

Lemma parseRawFromExtensions_last_witness :
  parseRawFromExtensions (L := Demo.libs) (SectionReader 0 11)
    (new_discarder (Demo.bytes_Reader Samples.two_layers))
  = Ok "hello"%string.
Proof.
  apply (parseRawFromExtensions_last (L := Demo.libs) 0 11
           (new_discarder (Demo.bytes_Reader Samples.two_layers))
           (mkConfig [mkLayer (mkMetadata "first"); mkLayer (mkMetadata "hello")])
           [mkLayer (mkMetadata "first")] (mkLayer (mkMetadata "hello"))).
  - vm_compute. reflexivity.
  - reflexivity.
Defined.


Lemma extractRawSchematic_exhausted_witness :
  exists fuel0, forall fuel', (fuel0 <= fuel')%nat ->
    extractRawSchematic (L := Demo.libs) fuel'
      (Demo.bytes_Reader Samples.no_member)
    = Some (Err EOF, [LogFound "a.txt"]).
Proof.
  apply (extractRawSchematic_exhausted (L := Demo.libs)
           (Demo.bytes_Reader Samples.no_member) (mkReader [] None)
           [nop] [LogFound "a.txt"]).
  - exact no_member_passes.
  - reflexivity.
  - reflexivity.
Defined.

(** C3, as stated, fails: on an archive without extensions.yaml followed by
    zero padding and the end of input the driver fails with io.EOF, whose
    text is "EOF" and does not name extensions.yaml; an artifact cut off
    after two bytes fails with the same error. *)
Lemma extractRawSchematic_exhausted_is_plain_EOF :
  passes_all (L := Demo.libs) (Demo.bytes_Reader Samples.no_member) [] []
    (mkReader [] None) [nop] [LogFound "a.txt"]
  /\ extractRawSchematic (L := Demo.libs) 3
       (Demo.bytes_Reader Samples.no_member)
     = Some (Err EOF, [LogFound "a.txt"])
  /\ Error EOF = "EOF"%string
  /\ ~ reports_member EOF
  /\ extractRawSchematic (L := Demo.libs) 3 (Demo.bytes_Reader [x30; x37])
     = Some (Err EOF, []).
Proof.
  split; [exact no_member_passes|].
  split; [vm_compute; reflexivity|].
  split; [reflexivity|].
  split; [exact EOF_not_reports_member | vm_compute; reflexivity].
Qed.

Lemma extractRawSchematic_releases_witness :
  let t := snd (match extractRawSchematic (L := Demo.libs) 4
                        (Demo.bytes_Reader Samples.two_frames) with
                | Some x => x
                | None => (Panic, [])
                end) in
  closed t = opened t
  /\ exists t0, t = t0 ++ map Closed (opened t0) /\ closed t0 = [].
Proof.
  apply (extractRawSchematic_releases (L := Demo.libs) 4
           (Demo.bytes_Reader Samples.two_frames) (Err EOF)).
  vm_compute. reflexivity.
Defined.

(** C10, as stated, fails: on two Zstandard frames in a row the decoder of
    the outer frame is opened first and closed first; the decoders are not
    closed in the reverse of the order in which they were opened. *)
Lemma extractRawSchematic_releases_in_opening_order :
  exists t,
    extractRawSchematic (L := Demo.libs) 4
      (Demo.bytes_Reader Samples.two_frames) = Some (Err EOF, t)
    /\ opened t = [Demo.bytes_Reader Samples.two_frames;
                   Demo.bytes_Reader Samples.inner_frame]
    /\ closed t = [Demo.bytes_Reader Samples.two_frames;
                   Demo.bytes_Reader Samples.inner_frame]
    /\ closed t <> rev (opened t).
Proof.
  eexists. split; [vm_compute; reflexivity|].
  split; [vm_compute; reflexivity|].
  split; [vm_compute; reflexivity|].
  intros H.
  apply (f_equal (map (fun rd => length (data rd)))) in H.
  vm_compute in H. discriminate H.
Qed.

Lemma Demo_iterator_consumes : iterator_consumes (L := Demo.libs).
Proof. intros c d res c' d' H. exact (Demo_ReadRecord_advance _ _ _ _ _ H). Qed.

Lemma Demo_finitely_nested (rd : Reader) :
  finitely_nested (L := Demo.libs) rd.
Proof.
  unfold finitely_nested.
  assert (H : forall n rd0, (length (data rd0) < n)%nat ->
              Acc (nested (L := Demo.libs)) rd0).
  { induction n as [|n IH]; intros rd0 Hn; [lia|].
    constructor. intros deep [k Hk]. apply IH.
    assert (Hd : (length (data deep) < length (data (advance k rd0)))%nat)
      by (destruct Hk as [Hk|Hk]; exact (Demo_stored_depth _ _ Hk)).
    pose proof (advance_length k rd0). lia. }
  apply (H (S (length (data rd)))). lia.
Qed.


Lemma Endless_iterator_consumes : iterator_consumes (L := Endless.libs).
Proof. intros c d res c' d' H. exact (Demo_ReadRecord_advance _ _ _ _ _ H). Qed.

(** One turn of the outer loop on a layer that ends without the member. *)
Lemma layers_loop_turn {L : Libs} (fuel : nat) (rd : Reader)
  (cfs : list closeFunc) (t : trace) dec cf t1 e c1 d1 rd1 :
  decompressingReadCloser rd t = (inr (dec, cf), t1) ->
  ReadRecord Newc_Reader (new_discarder dec) = (inl e, c1, d1) ->
  is_EOF e = true ->
  eatPadding (r d1) = (None, rd1) ->
  layers_loop (S (S fuel)) rd cfs t = layers_loop (S fuel) rd1 (cfs ++ [cf]) t1.
Proof.
  intros Hs Hr He Hp.
  change (layers_loop (S (S fuel)) rd cfs t)
    with (match decompressingReadCloser rd t with
          | (inl err, t1) => Some (Err err, cfs, t1)
          | (inr (decReader, closeF), t1) =>
              match records_loop (S fuel) Newc_Reader
                      (new_discarder decReader) t1 with
              | None => None
              | Some (Return res, t2) => Some (res, cfs ++ [closeF], t2)
              | Some (Break d1, t2) =>
                  match eatPadding (r d1) with
                  | (Some err, _) => Some (Err err, cfs ++ [closeF], t2)
                  | (None, reader1) =>
                      layers_loop (S fuel) reader1 (cfs ++ [closeF]) t2
                  end
              end
          end).
  rewrite Hs. cbn [records_loop]. rewrite Hr, He, Hp. reflexivity.
Qed.

Lemma Endless_sniff (t : trace) :
  decompressingReadCloser (L := Endless.libs) Endless.artifact t
  = (inr (mkReader (Demo.trailer ++ zstd_magic ++ Demo.trailer) None,
          decoder_Close Endless.artifact),
     t ++ [Opened Endless.artifact]).
Proof. reflexivity. Qed.

Lemma Endless_layers_loop (fuel : nat) :
  forall cfs t,
    layers_loop (L := Endless.libs) fuel Endless.artifact cfs t = None.
Proof.
  induction fuel as [|fuel IH]; intros cfs t; [reflexivity|].
  destruct fuel as [|fuel'];
    [cbn [layers_loop]; rewrite Endless_sniff; reflexivity|].
  rewrite (layers_loop_turn (L := Endless.libs) fuel' Endless.artifact cfs t
             _ _ _ EOF 124
             (mkDiscarder (mkReader ([x00; x00; x00] ++ zstd_magic
                                       ++ Demo.trailer) None) 121)
             Endless.artifact (Endless_sniff t)).
  - apply IH.
  - vm_compute. reflexivity.
  - reflexivity.
  - vm_compute. reflexivity.
Qed.


Lemma Legacy_run_no_layers_panics_witness :
  Legacy.run (L := Demo.libs) 2 (Demo.bytes_Reader Samples.no_layers) []
  = Some (Panic, [LogFound "extensions.yaml"])
  /\ extractRawSchematic (L := Demo.libs) 2
       (Demo.bytes_Reader Samples.no_layers)
     = Some (Err ErrNoLayers, [LogFound "extensions.yaml"]).
Proof.
  apply (Legacy_run_no_layers_panics (L := Demo.libs)
           (Demo.bytes_Reader Samples.no_layers) []
           (mkRecord "extensions.yaml" (SectionReader 128 0)) 128
           (at_cursor Samples.no_layers None 126) 128 0 (mkConfig []) 0).
  - vm_compute. lia.
  - vm_compute. reflexivity.
  - vm_compute. reflexivity.
  - reflexivity.
  - reflexivity.
  - vm_compute. reflexivity.
  - reflexivity.
Defined.

(** * Further properties of the adapter and of the padding skipper *)

(** ** [discarder.ReadAt] *)

(** X1: [ReadAt] never gives bytes back to the reader: whatever the request,
    the reader afterwards is the reader before with some bytes dropped. *)
Theorem ReadAt_only_consumes (d : discarder) (n : nat) (off : Z) :
  exists k, r (snd (ReadAt d n off)) = advance k (r d).
Proof.
  destruct (ReadAt d n off) as [[got err] d'] eqn:H.
  exact (proj1 (ReadAt_advance _ _ _ _ _ _ H)).
Qed.

(** X2: A call that does not deliver the whole buffer without error was either
    refused for its offset, leaving the discarder as it was, or has used up
    the reader: after a short or failed read nothing is left to read. *)
Theorem ReadAt_short_exhausts (d : discarder) (n : nat) (off : Z) :
  let '((got, err), d') := ReadAt d n off in
  (length got = n /\ err = None)
  \/ (got = [] /\ err = Some ErrNegativeSeek /\ d' = d)
  \/ ((length got <= n)%nat /\ data (r d') = []).
Proof.
  unfold ReadAt.
  destruct (wrap64 (off - pos d) <? 0) eqn:Hg; [right; left; repeat split|].
  apply Z.ltb_ge in Hg.
  assert (Hfull : forall d1 : discarder,
    let '((got, err), d') :=
      (let '(got0, err0, rd) := io_ReadFull (r d1) n in
       match err0 with
       | Some e => ((got0, Some e), mkDiscarder rd (pos d1))
       | None => ((got0, None),
                  mkDiscarder rd (wrap64 (pos d1 + Z.of_nat (length got0))))
       end) in
    (length got = n /\ err = None)
    \/ (got = [] /\ err = Some ErrNegativeSeek /\ d' = d)
    \/ ((length got <= n)%nat /\ data (r d') = [])).
  { intros d1. unfold io_ReadFull.
    destruct (n <=? length (data (r d1)))%nat eqn:Hn.
    - apply Nat.leb_le in Hn. left. split; [|reflexivity].
      rewrite length_firstn. lia.
    - apply Nat.leb_gt in Hn. right; right. cbn [r advance data].
      split; [lia | apply skipn_all]. }
  destruct (off =? pos d); [apply Hfull|].
  unfold io_Copy_Discard_Limit.
  destruct (wrap64 (off - pos d) <=? 0) eqn:H0.
  - apply Z.leb_le in H0.
    assert (Hz : wrap64 (off - pos d) = 0) by lia.
    rewrite Hz. cbn [Z.eqb negb].
    apply (Hfull (mkDiscarder (r d) (wrap64 (pos d + 0)))).
  - destruct (wrap64 (off - pos d) <=? Z.of_nat (length (data (r d)))) eqn:H1.
    + rewrite Z.eqb_refl. cbn [negb].
      apply (Hfull (mkDiscarder
                      (advance (Z.to_nat (wrap64 (off - pos d))) (r d))
                      (wrap64 (pos d + wrap64 (off - pos d))))).
    + assert (Hend : data (advance (length (data (r d))) (r d)) = [])
        by (unfold advance; cbn [data]; apply skipn_all).
      apply Z.leb_gt in H1.
      destruct (is_EOF (end_err (r d))).
      * destruct (Z.of_nat (length (data (r d))) =? wrap64 (off - pos d)) eqn:H2;
          [apply Z.eqb_eq in H2; lia|].
        cbn [negb]. right; right. cbn [r length]. split; [lia | exact Hend].
      * right; right. cbn [r length]. split; [lia | exact Hend].
Qed.

(** X3: When a request for at least one byte is filled without error, the
    cursor ends at the end of the request and has advanced by exactly the
    number of bytes the reader lost, and the bytes delivered are those that
    lay [off - pos] bytes ahead: a cursor that counts the consumed bytes
    keeps counting them. *)
Theorem ReadAt_cursor_counts (d : discarder) (n : nat) (off : Z)
  (got : list byte) (d' : discarder) :
  0 <= pos d ->
  pos d + Z.of_nat (length (data (r d))) <= max_int64 ->
  pos d <= off <= max_int64 ->
  (0 < n)%nat ->
  ReadAt d n off = ((got, None), d') ->
  length got = n ->
  pos d' = off + Z.of_nat n
  /\ pos d' - pos d
     = Z.of_nat (length (data (r d))) - Z.of_nat (length (data (r d')))
  /\ got = slice (data (r d)) (off - pos d) n.
Proof.
  intros Hpos Hmax Hoff Hn Hread Hgot. revert Hread.
  assert (Hm : max_int64 = 2 ^ 63 - 1) by reflexivity.
  assert (Hmi : min_int64 = - 2 ^ 63) by reflexivity.
  unfold ReadAt. rewrite (wrap64_id (off - pos d)) by lia.
  destruct (off - pos d <? 0) eqn:Hg; [apply Z.ltb_lt in Hg; lia|].
  assert (Hfull : forall (k : nat) (p : Z),
    Z.of_nat k = off - pos d -> p = off ->
    (k <= length (data (r d)))%nat ->
    (let '(got0, err0, rd) := io_ReadFull (advance k (r d)) n in
     match err0 with
     | Some e => ((got0, Some e), mkDiscarder rd p)
     | None => ((got0, None),
                mkDiscarder rd (wrap64 (p + Z.of_nat (length got0))))
     end) = ((got, None), d') ->
    pos d' = off + Z.of_nat n
    /\ pos d' - pos d
       = Z.of_nat (length (data (r d))) - Z.of_nat (length (data (r d')))
    /\ got = slice (data (r d)) (off - pos d) n).
  { intros k p Hk -> Hkl. unfold io_ReadFull, advance; cbn [data fail].
    rewrite length_skipn.
    destruct (n <=? length (data (r d)) - k)%nat eqn:Hle; [|discriminate].
    apply Nat.leb_le in Hle. intros H. injection H as <- <-. cbn [pos r data].
    rewrite length_firstn, length_skipn, Nat.min_l by lia.
    rewrite wrap64_id by lia. rewrite skipn_skipn, length_skipn.
    split; [reflexivity|]. split; [lia|].
    unfold slice. rewrite <- Hk, Nat2Z.id. reflexivity. }
  destruct (off =? pos d) eqn:Heq.
  - apply Z.eqb_eq in Heq. intros H.
    apply (Hfull 0%nat off); [lia | reflexivity | lia|].
    rewrite <- advance_0. rewrite Heq. exact H.
  - apply Z.eqb_neq in Heq. unfold io_Copy_Discard_Limit.
    destruct (off - pos d <=? 0) eqn:H0; [apply Z.leb_le in H0; lia|].
    destruct (off - pos d <=? Z.of_nat (length (data (r d)))) eqn:H1.
    + apply Z.leb_le in H1. rewrite Z.eqb_refl. cbn [negb r pos].
      intros H.
      apply (Hfull (Z.to_nat (off - pos d)) off); [lia | reflexivity | lia|].
      rewrite wrap64_id in H by lia.
      replace (pos d + (off - pos d)) with off in H by lia. exact H.
    + apply Z.leb_gt in H1.
      destruct (is_EOF (end_err (r d))); [|discriminate].
      destruct (Z.of_nat (length (data (r d))) =? off - pos d) eqn:H2;
        [apply Z.eqb_eq in H2; lia|].
      cbn [negb]. intros H. injection H as <- _. cbn in Hgot. lia.
Qed.

Lemma ReadAt_cursor_counts_witness :
  let d := mkDiscarder (mkReader eight_bytes None) 10 in
  let d' := mkDiscarder (mkReader [x06; x07; x08] None) 15 in
  pos d' = 12 + Z.of_nat 3
  /\ pos d' - pos d
     = Z.of_nat (length (data (r d))) - Z.of_nat (length (data (r d')))
  /\ [x03; x04; x05] = slice (data (r d)) (12 - pos d) 3.
Proof.
  intros d d'.
  apply (ReadAt_cursor_counts d 3 12 [x03; x04; x05] d').
  - cbn. lia.
  - vm_compute. discriminate.
  - split; [cbn; lia | vm_compute; discriminate].
  - lia.
  - vm_compute. reflexivity.
  - reflexivity.
Defined.

Lemma firstn_add {A : Type} (n1 n2 : nat) (l : list A) :
  firstn (n1 + n2) l = firstn n1 l ++ firstn n2 (skipn n1 l).
Proof.
  revert l. induction n1 as [|n1 IH]; intros l; [reflexivity|].
  destruct l as [|x l]; cbn.
  - rewrite firstn_nil. reflexivity.
  - rewrite IH. reflexivity.
Qed.

(** X4: On a stream of at most 2^63 - 1 bytes, with the cursor at or before
    the first offset and both ranges inside the stream, two requests that
    follow each other without a gap both succeed and deliver, one after the
    other, what one request of the combined length delivers, and leave the
    discarder in the same state: reading such a section in chunks is
    reading it at once. *)
Theorem ReadAt_adjacent (s : list byte) (fl : option error) (cur off : Z)
  (n1 n2 : nat) :
  Z.of_nat (length s) <= max_int64 ->
  0 <= cur <= off ->
  off + Z.of_nat n1 + Z.of_nat n2 <= Z.of_nat (length s) ->
  let '((got1, err1), d1) := ReadAt (at_cursor s fl cur) n1 off in
  let '((got2, err2), d2) := ReadAt d1 n2 (off + Z.of_nat n1) in
  err1 = None /\ err2 = None
  /\ ReadAt (at_cursor s fl cur) (n1 + n2) off = ((got1 ++ got2, None), d2).
Proof.
  intros Hmax Hcur Hlen.
  rewrite (ReadAt_slice s fl cur off n1) by lia.
  rewrite (ReadAt_slice s fl (off + Z.of_nat n1) (off + Z.of_nat n1) n2) by lia.
  rewrite (ReadAt_slice s fl cur off (n1 + n2)) by lia.
  split; [reflexivity|]. split; [reflexivity|].
  unfold slice. rewrite firstn_add, skipn_skipn.
  replace (n1 + Z.to_nat off)%nat with (Z.to_nat (off + Z.of_nat n1)) by lia.
  replace (off + Z.of_nat n1 + Z.of_nat n2) with (off + Z.of_nat (n1 + n2)) by lia.
  reflexivity.
Qed.

Lemma ReadAt_adjacent_witness :
  ReadAt (at_cursor eight_bytes None 0) (2 + 3) 1
  = (([x02; x03; x04; x05; x06], None),
     mkDiscarder (mkReader [x07; x08] None) 6).
Proof.
  assert (H := ReadAt_adjacent eight_bytes None 0 1 2 3).
  vm_compute in H. vm_compute.
  destruct H as (_ & _ & H).
  - discriminate.
  - split; discriminate.
  - discriminate.
  - exact H.
Defined.

(** ** [eatPadding] *)

Lemma eatPadding_bytes_split (bs : list byte) :
  exists k, bs = repeat x00 k ++ eatPadding_bytes bs.
Proof.
  induction bs as [|b bs [k IH]]; [exists 0%nat; reflexivity|].
  cbn [eatPadding_bytes]. destruct (Byte.eqb b x00) eqn:Hb.
  - apply byte_dec_bl in Hb. subst b. exists (S k). cbn. rewrite <- IH.
    reflexivity.
  - exists 0%nat. reflexivity.
Qed.

Lemma eatPadding_bytes_head (bs : list byte) (b : byte) (rest : list byte) :
  eatPadding_bytes bs = b :: rest -> b <> x00.
Proof.
  induction bs as [|c bs IH]; [discriminate|].
  cbn [eatPadding_bytes]. destruct (Byte.eqb c x00) eqn:Hc; [exact IH|].
  intros H. injection H as -> _. apply eqb_false. exact Hc.
Qed.

(** X5: [eatPadding] drops zero bytes from the front of the reader and nothing
    else: the bytes before are some zero bytes followed by the bytes after,
    and the bytes after do not begin with a zero byte. *)
Theorem eatPadding_drops_leading_zeros (rd : Reader) :
  exists k,
    data rd = repeat x00 k ++ data (snd (eatPadding rd))
    /\ fail (snd (eatPadding rd)) = fail rd
    /\ forall b rest, data (snd (eatPadding rd)) = b :: rest -> b <> x00.
Proof.
  destruct (eatPadding_bytes_split (data rd)) as [k Hk].
  pose proof (eatPadding_bytes_head (data rd)) as Hhead.
  exists k. unfold eatPadding.
  destruct (eatPadding_bytes (data rd)) as [|b rest]; cbn [snd data fail].
  - split; [exact Hk|]. split; [reflexivity | discriminate].
  - split; [exact Hk|]. split; [reflexivity|].
    intros b0 rest0 H. injection H as <- <-. exact (Hhead b rest eq_refl).
Qed.

(** X6: [eatPadding] fails exactly when it reads zero bytes up to the end of the
    input and the input ends with an error other than io.EOF, and then
    returns that error: a clean end of input is never an error. *)
Theorem eatPadding_error_iff (rd : Reader) (e : error) :
  fst (eatPadding rd) = Some e
  <-> Forall (fun b => b = x00) (data rd)
      /\ fail rd = Some e /\ is_EOF e = false.
Proof.
  destruct (eatPadding_bytes_split (data rd)) as [k Hk].
  pose proof (eatPadding_bytes_head (data rd)) as Hhead.
  unfold eatPadding, end_err.
  destruct (eatPadding_bytes (data rd)) as [|b rest]; cbn [fst].
  - rewrite app_nil_r in Hk. split.
    + intros H. split.
      * rewrite Hk. clear. induction k; constructor; [reflexivity | assumption].
      * destruct (fail rd) as [e0|]; [|discriminate].
        destruct (is_EOF e0) eqn:He; [discriminate|].
        injection H as <-. split; [reflexivity | exact He].
    + intros (_ & Hf & He). rewrite Hf, He. reflexivity.
  - split; [discriminate|]. intros (Hall & _). exfalso.
    rewrite Hk in Hall. apply Forall_app in Hall as [_ Hall].
    inversion Hall; subst. exact (Hhead x00 rest eq_refl eq_refl).
Qed.

Lemma eatPadding_bytes_idem (bs : list byte) :
  eatPadding_bytes (eatPadding_bytes bs) = eatPadding_bytes bs.
Proof.
  induction bs as [|b bs IH]; [reflexivity|].
  cbn [eatPadding_bytes]. destruct (Byte.eqb b x00) eqn:Hb; [exact IH|].
  cbn [eatPadding_bytes]. rewrite Hb. reflexivity.
Qed.

(** X7: Skipping the padding twice is skipping it once: the second call finds
    nothing to drop and reports what the first one reported. *)
Theorem eatPadding_idempotent (rd : Reader) :
  eatPadding (snd (eatPadding rd)) = eatPadding rd.
Proof.
  pose proof (eatPadding_bytes_idem (data rd)) as Hid.
  unfold eatPadding at 2 3. 
  destruct (eatPadding_bytes (data rd)) as [|b rest] eqn:Hb; cbn [snd].
  - reflexivity.
  - unfold eatPadding. cbn [data fail]. rewrite Hid. reflexivity.
Qed.

(** * Further properties of the sniffer and of the member decoder *)

Section SnifferDecoderMore.
Context {L : Libs}.

(** X8: The sniffer fails in three ways only: fewer than four bytes are left,
    and the error is the one the reader ends with (io.EOF at a clean end);
    or the magic is that of XZ or of Zstandard and the codec refuses the
    stream.  A failing sniffer opens no decoder. *)
Theorem decompressingReadCloser_fails_iff (in_ : Reader) (t : trace)
  (e : error) :
  (fst (decompressingReadCloser in_ t) = inl e
   <-> ((length (data in_) < 4)%nat /\ e = end_err in_)
       \/ ((4 <= length (data in_))%nat
           /\ firstn 4 (data in_) = xz_magic /\ xz_NewReader in_ = inl e)
       \/ ((4 <= length (data in_))%nat
           /\ firstn 4 (data in_) = zstd_magic /\ zstd_NewReader in_ = inl e))
  /\ (fst (decompressingReadCloser in_ t) = inl e ->
      snd (decompressingReadCloser in_ t) = t).
Proof.
  split.
  - unfold decompressingReadCloser, Peek.
    destruct (4 <=? length (data in_))%nat eqn:Hp.
    + apply Nat.leb_le in Hp.
      pose proof (classify_XZ (firstn 4 (data in_))) as HX.
      pose proof (classify_ZSTD (firstn 4 (data in_))) as HZ.
      destruct (classify (firstn 4 (data in_))).
      * cbn [fst]. split; [discriminate|].
        intros [[H _]|[(_ & H & _)|(_ & H & _)]];
          [lia | apply HX in H; discriminate | apply HZ in H; discriminate].
      * destruct (xz_NewReader in_) as [e0|rd]; cbn [fst]; split.
        -- intros H. injection H as ->. right; left.
           split; [exact Hp|]. split; [apply HX|]; reflexivity.
        -- intros [[H _]|[(_ & _ & H)|(_ & H & _)]];
             [lia | congruence | apply HZ in H; discriminate].
        -- discriminate.
        -- intros [[H _]|[(_ & _ & H)|(_ & H & _)]];
             [lia | discriminate | apply HZ in H; discriminate].
      * destruct (zstd_NewReader in_) as [e0|rd]; cbn [fst]; split.
        -- intros H. injection H as ->. right; right.
           split; [exact Hp|]. split; [apply HZ|]; reflexivity.
        -- intros [[H _]|[(_ & H & _)|(_ & _ & H)]];
             [lia | apply HX in H; discriminate | congruence].
        -- discriminate.
        -- intros [[H _]|[(_ & H & _)|(_ & _ & H)]];
             [lia | apply HX in H; discriminate | discriminate].
    + apply Nat.leb_gt in Hp. cbn [fst]. split.
      * intros H. injection H as <-. left. split; [exact Hp | reflexivity].
      * intros [[_ ->]|[(H & _)|(H & _)]]; [reflexivity | lia | lia].
  - destruct (decompressingReadCloser in_ t) as [[e0|x] t1] eqn:H;
      cbn [fst snd]; [|discriminate].
    intros _. exact (decompressingReadCloser_failed _ _ _ _ H).
Qed.

Lemma index_nonempty {A : Type} (l : list A) :
  l <> [] -> exists a, index l (Z.of_nat (length l) - 1) = Some a.
Proof.
  intros Hne. destruct (exists_last Hne) as (front & a & ->).
  exists a. apply index_last.
Qed.

(** X9: [parseRawFromExtensions] succeeds only in the way it is meant to: the
    record's reader is a section reader, its bytes decode to a document, the
    document has a last layer, and the result is that layer's text. *)
Theorem parseRawFromExtensions_Ok_iff (readerAt : io_ReaderAt)
  (d : discarder) (s : string) :
  parseRawFromExtensions readerAt d = Ok s
  <-> exists base n cfg front l,
        readerAt = SectionReader base n
        /\ yaml_Decode (fst (read_section d base n))
                       (snd (read_section d base n)) = inr cfg
        /\ Layers cfg = front ++ [l]
        /\ s = ExtraInfo (Metadata l).
Proof.
  split.
  - unfold parseRawFromExtensions.
    destruct readerAt as [base n|]; [|discriminate].
    destruct (read_section d base n) as [bytes rerr] eqn:Hrs.
    destruct (yaml_Decode bytes rerr) as [e|cfg] eqn:Hdec; [discriminate|].
    destruct (Layers cfg) as [|l0 ls] eqn:Hl; [discriminate|].
    destruct (@exists_last _ (l0 :: ls)) as (front & l & Hfl); [discriminate|].
    rewrite Hfl, index_last.
    destruct (Z.of_nat (length (front ++ [l])) =? 0); [discriminate|].
    intros H. injection H as <-.
    exists base, n, cfg, front, l.
    split; [reflexivity|]. split; [rewrite Hrs; exact Hdec|].
    split; [rewrite Hl; exact Hfl | reflexivity].
  - intros (base & n & cfg & front & l & -> & Hdec & Hl & ->).
    unfold parseRawFromExtensions.
    destruct (read_section d base n) as [bytes rerr]. cbn [fst snd] in Hdec.
    rewrite Hdec, Hl, index_last, length_app. cbn [length].
    destruct (Z.of_nat (length front + 1) =? 0) eqn:H;
      [apply Z.eqb_eq in H; lia | reflexivity].
Qed.

End SnifferDecoderMore.

(** * Further properties of the drivers *)

Lemma found_names_app (t1 t2 : trace) :
  found_names (t1 ++ t2) = found_names t1 ++ found_names t2.
Proof.
  induction t1 as [|ev t1 IH]; [reflexivity|].
  destruct ev; cbn; rewrite IH; reflexivity.
Qed.

Lemma found_names_Closed (hs : list Reader) : found_names (map Closed hs) = [].
Proof. induction hs; [reflexivity | assumption]. Qed.

Section DriverMore.
Context {L : Libs}.

(** What the log of a finished inner loop holds. *)
Lemma records_loop_names (fuel : nat) :
  forall c d t o t', records_loop fuel c d t = Some (o, t') ->
  ~ In extensionsYAMLFileName (found_names t) ->
  (~ In extensionsYAMLFileName (found_names t')
   /\ forall s, o <> Return (Ok s))
  \/ (exists ns, found_names t' = ns ++ [extensionsYAMLFileName]
                 /\ ~ In extensionsYAMLFileName ns
                 /\ exists res, o = Return res).
Proof.
  induction fuel as [|fuel IH]; intros c d t o t' H Hno; [discriminate|].
  cbn [records_loop] in H.
  destruct (ReadRecord c d) as [[[e|rec] c1] d1].
  - left. destruct (is_EOF e); injection H as <- <-;
      (split; [exact Hno | discriminate]).
  - destruct (String.eqb (Name rec) extensionsYAMLFileName) eqn:Hn.
    + apply String.eqb_eq in Hn. injection H as <- <-. right.
      exists (found_names t). rewrite found_names_app. cbn. rewrite Hn.
      split; [reflexivity|]. split; [exact Hno | eexists; reflexivity].
    + apply String.eqb_neq in Hn. apply IH in H; [exact H|].
      rewrite found_names_app. cbn. intros Hin.
      apply in_app_or in Hin as [Hin|[Hin|[]]]; [exact (Hno Hin)|].
      exact (Hn Hin).
Qed.

Lemma decompressingReadCloser_names reader t x t1 :
  decompressingReadCloser reader t = (x, t1) ->
  found_names t1 = found_names t.
Proof.
  unfold decompressingReadCloser. intros H.
  destruct (Peek reader 4) as [e|magic]; [congruence|].
  destruct (classify magic).
  - congruence.
  - destruct (xz_NewReader reader); congruence.
  - destruct (zstd_NewReader reader); [congruence|].
    injection H as _ <-. rewrite found_names_app. cbn. apply app_nil_r.
Qed.

Lemma layers_loop_names (fuel : nat) :
  forall reader cfs t res cfs' t',
    layers_loop fuel reader cfs t = Some (res, cfs', t') ->
    ~ In extensionsYAMLFileName (found_names t) ->
    (~ In extensionsYAMLFileName (found_names t')
     /\ forall s, res <> Ok s)
    \/ (exists ns, found_names t' = ns ++ [extensionsYAMLFileName]
                   /\ ~ In extensionsYAMLFileName ns).
Proof.
  induction fuel as [|fuel IH]; intros reader cfs t res cfs' t' H Hno;
    [discriminate|].
  cbn [layers_loop] in H.
  destruct (decompressingReadCloser reader t) as [[e|[dec cf]] t1] eqn:Hs;
    apply decompressingReadCloser_names in Hs.
  - injection H as <- _ <-. left. rewrite Hs. split; [exact Hno | discriminate].
  - destruct (records_loop fuel Newc_Reader (new_discarder dec) t1)
      as [[o t2]|] eqn:Hin; [|discriminate].
    apply records_loop_names in Hin; [|rewrite Hs; exact Hno].
    destruct o as [d1|res0].
    + destruct Hin as [[Hno2 _]|(ns & _ & _ & res1 & Hres)]; [|discriminate].
      destruct (eatPadding (r d1)) as [[e|] reader1].
      * injection H as <- _ <-. left. split; [exact Hno2 | discriminate].
      * exact (IH _ _ _ _ _ _ H Hno2).
    + injection H as <- _ <-.
      destruct Hin as [[Hno2 Hok]|(ns & Hns & Hnot & _)].
      * left. split; [exact Hno2|]. intros s Hs2. apply (Hok s). congruence.
      * right. exists ns. split; assumption.
Qed.

(** X13: In the log of every finished run at most one "found record" line names
    extensions.yaml, and it is the last such line: no record is looked at
    after the member was found.  A run whose log does not name the member
    does not succeed. *)
Theorem extractRawSchematic_member_last (fuel : nat) (reader : Reader)
  (res : result string) (t : trace) :
  extractRawSchematic fuel reader = Some (res, t) ->
  (~ In extensionsYAMLFileName (found_names t) /\ forall s, res <> Ok s)
  \/ (exists ns, found_names t = ns ++ [extensionsYAMLFileName]
                 /\ ~ In extensionsYAMLFileName ns).
Proof.
  unfold extractRawSchematic. intros H.
  destruct (layers_loop fuel reader [] []) as [[[res0 cfs] t0]|] eqn:Hl;
    [|discriminate].
  injection H as <- <-.
  rewrite run_closeFuncs_trace, found_names_app, found_names_Closed, app_nil_r.
  apply (layers_loop_names _ _ _ _ _ _ _ Hl). cbn. tauto.
Qed.

End DriverMore.

Lemma extractRawSchematic_member_last_witness :
  (~ In extensionsYAMLFileName (found_names [LogFound "a.txt"])
   /\ forall s, @Err string EOF <> Ok s)
  \/ (exists ns, found_names [LogFound "a.txt"]
                 = ns ++ [extensionsYAMLFileName]
                 /\ ~ In extensionsYAMLFileName ns).
Proof.
  apply (extractRawSchematic_member_last (L := Demo.libs) 3
           (Demo.bytes_Reader Samples.no_member) (Err EOF)
           [LogFound "a.txt"]).
  vm_compute. reflexivity.
Defined.

(** ** Failures are returned as they are *)

Section DriverErrors.
Context {L : Libs}.

(** X14: When, after any number of layers without the member, the sniffer fails,
    the driver returns the sniffer's error unchanged (a truncated layer
    gives io.EOF) after running the release functions registered so far. *)
Theorem extractRawSchematic_sniffer_error reader reader' cfs t e :
  passes_all reader [] [] reader' cfs t ->
  fst (decompressingReadCloser reader' t) = inl e ->
  exists fuel0, forall fuel', (fuel0 <= fuel')%nat ->
    extractRawSchematic fuel' reader = Some (Err e, run_closeFuncs cfs t).
Proof.
  intros Hall Hs.
  assert (Hlast : layers_loop 1 reader' cfs t = Some (Err e, cfs, t)).
  { cbn [layers_loop].
    destruct (decompressingReadCloser reader' t) as [[e0|x] t1] eqn:H;
      [|discriminate].
    cbn [fst] in Hs. injection Hs as ->.
    rewrite (decompressingReadCloser_failed _ _ _ _ H). reflexivity. }
  destruct (passes_all_run _ _ _ _ _ _ Hall _ _ Hlast) as [fuel Hrun].
  exact (layers_loop_extract _ _ _ _ _ Hrun).
Qed.

(** X15: When the iterator fails with an error other than io.EOF, the driver
    returns that error unchanged: it neither goes on to the next layer nor
    wraps the error. *)
Theorem extractRawSchematic_iterator_error
  reader reader' cfs t decReader closeF t1 recs c2 d2 e c3 d3 :
  passes_all reader [] [] reader' cfs t ->
  decompressingReadCloser reader' t = (inr (decReader, closeF), t1) ->
  skips Newc_Reader (new_discarder decReader) recs c2 d2 ->
  ReadRecord c2 d2 = (inl e, c3, d3) ->
  is_EOF e = false ->
  exists fuel0, forall fuel', (fuel0 <= fuel')%nat ->
    extractRawSchematic fuel' reader
    = Some (Err e, run_closeFuncs (cfs ++ [closeF]) (t1 ++ found_lines recs)).
Proof.
  intros Hall Hs Hskip Hrd He.
  assert (Hlast : layers_loop (S (length recs + 1)) reader' cfs t
                  = Some (Err e, cfs ++ [closeF], t1 ++ found_lines recs)).
  { cbn [layers_loop].
    rewrite Hs, (records_loop_skips _ _ _ _ _ Hskip).
    cbn [records_loop]. rewrite Hrd, He. reflexivity. }
  destruct (passes_all_run _ _ _ _ _ _ Hall _ _ Hlast) as [fuel Hrun].
  exact (layers_loop_extract _ _ _ _ _ Hrun).
Qed.

(** X16: When a layer ends without the member and skipping the padding after it
    fails, the driver returns the error of the failed read. *)
Theorem extractRawSchematic_padding_error
  reader reader' cfs t decReader closeF t1 recs c2 d2 eof c3 d3 e :
  passes_all reader [] [] reader' cfs t ->
  decompressingReadCloser reader' t = (inr (decReader, closeF), t1) ->
  skips Newc_Reader (new_discarder decReader) recs c2 d2 ->
  ReadRecord c2 d2 = (inl eof, c3, d3) ->
  is_EOF eof = true ->
  fst (eatPadding (r d3)) = Some e ->
  exists fuel0, forall fuel', (fuel0 <= fuel')%nat ->
    extractRawSchematic fuel' reader
    = Some (Err e, run_closeFuncs (cfs ++ [closeF]) (t1 ++ found_lines recs)).
Proof.
  intros Hall Hs Hskip Hrd He Hpad.
  assert (Hlast : layers_loop (S (length recs + 1)) reader' cfs t
                  = Some (Err e, cfs ++ [closeF], t1 ++ found_lines recs)).
  { cbn [layers_loop].
    rewrite Hs, (records_loop_skips _ _ _ _ _ Hskip).
    cbn [records_loop]. rewrite Hrd, He.
    destruct (eatPadding (r d3)) as [[e0|] rd]; [|discriminate].
    cbn [fst] in Hpad. injection Hpad as ->. reflexivity. }
  destruct (passes_all_run _ _ _ _ _ _ Hall _ _ Hlast) as [fuel Hrun].
  exact (layers_loop_extract _ _ _ _ _ Hrun).
Qed.

End DriverErrors.

Lemma trailing_junk_passes :
  passes_all (L := Demo.libs) (Demo.bytes_Reader MoreSamples.trailing_junk)
    [] [] (mkReader [x01] None) [nop] [LogFound "a.txt"].
Proof.
  eapply passes_more; [|apply passes_none].
  refine (passes_intro (L := Demo.libs)
            (Demo.bytes_Reader MoreSamples.trailing_junk) []
            (Demo.bytes_Reader MoreSamples.trailing_junk) nop []
            [mkRecord "a.txt" (SectionReader 116 5)] 124
            (at_cursor MoreSamples.trailing_junk None 116) EOF 248
            (at_cursor MoreSamples.trailing_junk None 245)
            (mkReader [x01] None) _ _ _ _ _).
  - vm_compute. reflexivity.
  - eapply skips_cons with (c1 := 124)
      (d1 := at_cursor MoreSamples.trailing_junk None 116).
    + vm_compute. reflexivity.
    + vm_compute. discriminate.
    + apply skips_nil.
  - vm_compute. reflexivity.
  - reflexivity.
  - vm_compute. reflexivity.
Qed.

Lemma extractRawSchematic_sniffer_error_witness :
  exists fuel0, forall fuel', (fuel0 <= fuel')%nat ->
    extractRawSchematic (L := Demo.libs) fuel'
      (Demo.bytes_Reader MoreSamples.trailing_junk)
    = Some (Err EOF, run_closeFuncs [nop] [LogFound "a.txt"]).
Proof.
  apply (extractRawSchematic_sniffer_error (L := Demo.libs)
           (Demo.bytes_Reader MoreSamples.trailing_junk)
           (mkReader [x01] None) [nop] [LogFound "a.txt"] EOF).
  - exact trailing_junk_passes.
  - reflexivity.
Defined.

Lemma extractRawSchematic_iterator_error_witness :
  exists fuel0, forall fuel', (fuel0 <= fuel')%nat ->
    extractRawSchematic (L := Demo.libs) fuel'
      (Demo.bytes_Reader MoreSamples.garbage)
    = Some (Err (ErrLib "cpio: ReadAt failed"),
            run_closeFuncs ([] ++ [nop]) ([] ++ found_lines [])).
Proof.
  apply (extractRawSchematic_iterator_error (L := Demo.libs)
           (Demo.bytes_Reader MoreSamples.garbage)
           (Demo.bytes_Reader MoreSamples.garbage) [] []
           (Demo.bytes_Reader MoreSamples.garbage) nop [] [] 0
           (new_discarder (Demo.bytes_Reader MoreSamples.garbage))
           (ErrLib "cpio: ReadAt failed") 0
           (mkDiscarder (mkReader [] None) 0)).
  - apply passes_none.
  - vm_compute. reflexivity.
  - apply skips_nil.
  - vm_compute. reflexivity.
  - reflexivity.
Defined.

Lemma extractRawSchematic_padding_error_witness :
  exists fuel0, forall fuel', (fuel0 <= fuel')%nat ->
    extractRawSchematic (L := Demo.libs) fuel' MoreSamples.failing_source
    = Some (Err (ErrLib "read: input/output error"),
            run_closeFuncs ([] ++ [nop]) ([] ++ found_lines [])).
Proof.
  apply (extractRawSchematic_padding_error (L := Demo.libs)
           MoreSamples.failing_source MoreSamples.failing_source [] []
           MoreSamples.failing_source nop [] [] 0
           (new_discarder MoreSamples.failing_source) EOF 124
           (mkDiscarder
              (mkReader [x00; x00; x00]
                        (Some (ErrLib "read: input/output error"))) 121)
           (ErrLib "read: input/output error")).
  - apply passes_none.
  - vm_compute. reflexivity.
  - apply skips_nil.
  - vm_compute. reflexivity.
  - reflexivity.
  - vm_compute. reflexivity.
Defined.

(** ** The older driver against the newer one *)

Section Versions.
Context {L : Libs}.

Lemma found_agrees (rec : cpio_Record) (d : discarder) (t : trace) :
  agrees (parseRawFromExtensions (ReaderAt rec) d)
         (fst (Legacy.found rec d t))
  /\ snd (Legacy.found rec d t)
     = Legacy_trace (fst (Legacy.found rec d t)) t.
Proof.
  unfold Legacy.found, parseRawFromExtensions, agrees, Legacy_trace.
  destruct (ReaderAt rec) as [base n|];
    [|split; [right; split; [|right]|]; reflexivity].
  destruct (read_section d base n) as [bytes rerr].
  destruct (yaml_Decode bytes rerr) as [e|cfg];
    [split; [left|]; reflexivity|].
  destruct (Layers cfg) as [|l0 ls] eqn:Hl.
  - split; [right; split; [|left]|]; reflexivity.
  - destruct (@index_nonempty _ (l0 :: ls)) as [a Ha]; [discriminate|].
    rewrite Ha.
    destruct (Z.of_nat (length (l0 :: ls)) =? 0) eqn:H0;
      [apply Z.eqb_eq in H0; cbn [length] in H0; lia|].
    split; [left|]; reflexivity.
Qed.

Lemma records_loop_versions (fuel : nat) :
  forall c d t o t', records_loop fuel c d t = Some (o, t') ->
  match o with
  | Break d1 => Legacy.records_loop fuel c d t = Some (Legacy.Break d1, t')
  | Return res =>
      exists res', agrees res res'
        /\ Legacy.records_loop fuel c d t
           = Some (Legacy.Return res', Legacy_trace res' t')
  end.
Proof.
  induction fuel as [|fuel IH]; intros c d t o t' H; [discriminate|].
  cbn [records_loop Legacy.records_loop] in *.
  change "extensions.yaml"%string with extensionsYAMLFileName.
  destruct (ReadRecord c d) as [[[e|rec] c1] d1].
  - destruct (is_EOF e); injection H as <- <-; [reflexivity|].
    exists (Err e). split; [left|]; reflexivity.
  - destruct (String.eqb (Name rec) extensionsYAMLFileName);
      [|exact (IH _ _ _ _ _ H)].
    injection H as <- <-.
    destruct (found_agrees rec d1 (t ++ [LogFound (Name rec)])) as [Ha Ht].
    destruct (Legacy.found rec d1 (t ++ [LogFound (Name rec)])) as [res' t2].
    cbn [fst snd] in Ha, Ht. exists res'. split; [exact Ha|].
    rewrite Ht. reflexivity.
Qed.

Lemma layers_loop_versions (fuel : nat) :
  forall reader cfs t res cfs' t',
    layers_loop fuel reader cfs t = Some (res, cfs', t') ->
    exists res', agrees res res'
      /\ Legacy.run fuel reader t = Some (res', Legacy_trace res' t').
Proof.
  induction fuel as [|fuel IH]; intros reader cfs t res cfs' t' H;
    [discriminate|].
  cbn [layers_loop Legacy.run] in *. rewrite Legacy_sniff_agrees.
  destruct (decompressingReadCloser reader t) as [[e|[dec cf]] t1];
    cbn [fst snd].
  - injection H as <- _ <-. exists (Err e). split; [left|]; reflexivity.
  - destruct (records_loop fuel Newc_Reader (new_discarder dec) t1)
      as [[o t2]|] eqn:Hin; [|discriminate].
    apply records_loop_versions in Hin.
    destruct o as [d1|res0].
    + rewrite Hin. destruct (eatPadding (r d1)) as [[e|] reader1].
      * injection H as <- _ <-. exists (Err e). split; [left|]; reflexivity.
      * exact (IH _ _ _ _ _ _ H).
    + injection H as <- _ <-. destruct Hin as (res' & Ha & Hrun).
      exists res'. rewrite Hrun. split; [exact Ha | reflexivity].
Qed.

(** X17: The two versions of the driver agree: whenever [extractRawSchematic]
    finishes, the older [run] finishes with the same fuel and the same
    result, except that it panics where the newer code returns its
    no-layers or its reader-type error; its log is the newer log without
    the closing of the decoders, plus the text when there is one. *)
Theorem Legacy_run_agrees (fuel : nat) (reader : Reader)
  (res : result string) (t : trace) :
  extractRawSchematic fuel reader = Some (res, t) ->
  exists res' t0,
    agrees res res'
    /\ t = t0 ++ map Closed (opened t0)
    /\ Legacy.run fuel reader [] = Some (res', Legacy_trace res' t0).
Proof.
  unfold extractRawSchematic. intros H.
  destruct (layers_loop fuel reader [] []) as [[[res0 cfs] t0]|] eqn:Hl;
    [|discriminate].
  injection H as <- <-.
  destruct (layers_loop_events _ _ _ _ _ _ _ Hl eq_refl eq_refl) as [Ho _].
  destruct (layers_loop_versions _ _ _ _ _ _ _ Hl) as (res' & Ha & Hrun).
  exists res', t0. split; [exact Ha|]. split; [|exact Hrun].
  rewrite run_closeFuncs_trace, Ho. reflexivity.
Qed.

Lemma Legacy_records_loop_closed (fuel : nat) :
  forall c d t o t', Legacy.records_loop fuel c d t = Some (o, t') ->
  closed t' = closed t.
Proof.
  induction fuel as [|fuel IH]; intros c d t o t' H; [discriminate|].
  cbn [Legacy.records_loop] in H.
  destruct (ReadRecord c d) as [[[e|rec] c1] d1].
  - destruct (is_EOF e); injection H as _ <-; reflexivity.
  - destruct (String.eqb (Name rec) "extensions.yaml").
    + pose proof (proj2 (found_agrees rec d1 (t ++ [LogFound (Name rec)])))
        as Ht.
      destruct (Legacy.found rec d1 (t ++ [LogFound (Name rec)])) as [res t2].
      cbn [fst snd] in Ht. injection H as _ <-. rewrite Ht.
      unfold Legacy_trace. destruct res; rewrite ?closed_app; cbn;
        rewrite ?app_nil_r; reflexivity.
    + apply IH in H. rewrite closed_app in H. cbn in H.
      rewrite app_nil_r in H. exact H.
Qed.

(** X18: The older [run] never closes a decoder: every Zstandard decoder it
    opens is still open when it returns. *)
Theorem Legacy_run_never_closes (fuel : nat) :
  forall (in_ : Reader) (t : trace) (res : result string) (t' : trace),
    Legacy.run fuel in_ t = Some (res, t') -> closed t' = closed t.
Proof.
  induction fuel as [|fuel IH]; intros in_ t res t' H; [discriminate|].
  cbn [Legacy.run] in H. rewrite Legacy_sniff_agrees in H.
  destruct (decompressingReadCloser in_ t) as [[e|[dec cf]] t1] eqn:Hs;
    cbn [fst snd] in H.
  - apply decompressingReadCloser_failed in Hs. congruence.
  - apply decompressingReadCloser_events in Hs as [_ Hc1].
    destruct (Legacy.records_loop fuel Newc_Reader (new_discarder dec) t1)
      as [[o t2]|] eqn:Hin; [|discriminate].
    apply Legacy_records_loop_closed in Hin.
    destruct o as [d1|res0].
    + destruct (eatPadding (r d1)) as [[e|] in2].
      * injection H as _ <-. congruence.
      * apply IH in H. congruence.
    + injection H as _ <-. congruence.
Qed.

End Versions.

Lemma Legacy_run_agrees_witness :
  exists res' t0,
    agrees (Err ErrNoLayers) res'
    /\ [LogFound "extensions.yaml"] = t0 ++ map Closed (opened t0)
    /\ Legacy.run (L := Demo.libs) 2 (Demo.bytes_Reader Samples.no_layers) []
       = Some (res', Legacy_trace res' t0).
Proof.
  apply (Legacy_run_agrees (L := Demo.libs) 2
           (Demo.bytes_Reader Samples.no_layers) (Err ErrNoLayers)
           [LogFound "extensions.yaml"]).
  vm_compute. reflexivity.
Defined.

Lemma Legacy_run_never_closes_witness :
  closed
    [Opened (Demo.bytes_Reader Samples.two_frames);
     Opened (Demo.bytes_Reader Samples.inner_frame)]
  = closed [].
Proof.
  apply (Legacy_run_never_closes (L := Demo.libs) 4
           (Demo.bytes_Reader Samples.two_frames) [] (Err EOF)).
  vm_compute. reflexivity.
Defined.

(** * The cache and the download *)

Lemma write_file_same (fs : files) (p : string) (c : list byte) :
  write_file fs p c p = Some c.
Proof. unfold write_file. rewrite String.eqb_refl. reflexivity. Qed.

Lemma write_file_other (fs : files) (p q : string) (c : list byte) :
  q <> p -> write_file fs p c q = fs q.
Proof.
  intros H. unfold write_file. apply String.eqb_neq in H. rewrite H.
  reflexivity.
Qed.

Lemma remove_file_same (fs : files) (p : string) : remove_file fs p p = None.
Proof. unfold remove_file. rewrite String.eqb_refl. reflexivity. Qed.

Lemma remove_file_other (fs : files) (p q : string) :
  q <> p -> remove_file fs p q = fs q.
Proof.
  intros H. unfold remove_file. apply String.eqb_neq in H. rewrite H.
  reflexivity.
Qed.

Lemma os_Remove_other (w : world) (fs : files) (p q : string) :
  q <> p -> os_Remove w fs p q = fs q.
Proof.
  intros H. unfold os_Remove. destruct (remove_fault w); [reflexivity|].
  apply remove_file_other. exact H.
Qed.

Lemma io_Copy_file_finished (w : world) (body : Reader)
  (written : list byte) :
  io_Copy_file w body = (written, None) ->
  written = data body /\ is_EOF (end_err body) = true.
Proof.
  unfold io_Copy_file.
  assert (Hfin : (data body,
                  if is_EOF (end_err body) then None else Some (end_err body))
                 = (written, None) ->
                 written = data body /\ is_EOF (end_err body) = true).
  { destruct (is_EOF (end_err body)); [|discriminate].
    intros H. injection H as <-. split; reflexivity. }
  destruct (write_fault w) as [[k e]|]; [|exact Hfin].
  destruct (k <? length (data body))%nat; [discriminate | exact Hfin].
Qed.

Section DownloadFacts.
Context {O : OSLib}.

(** The ways [ensureInitramfsCached] can end: the artifact is there already;
    a failure before the temporary file exists; a failure after it was
    created; a completed download. *)
Lemma ensureInitramfsCached_cases (w : world) (fs : files)
  (path url : string) :
  let tmp := temp_path w path in
  let '(err, fs', urls) := ensureInitramfsCached w fs path url in
  (err = None /\ fs' = fs /\ urls = [] /\ os_Stat w fs path = StatOk)
  \/ (err <> None /\ fs' = fs /\ urls = [])
  \/ (err <> None /\ fs tmp = None
      /\ exists fsk, fs' = os_Remove w fsk tmp
                     /\ forall q, q <> tmp -> fsk q = fs q)
  \/ (err = None /\ fs tmp = None /\ urls = [url]
      /\ os_Stat w fs path <> StatOk
      /\ exists body fsk,
           http_Do w url = inr (200, body)
           /\ is_EOF (end_err body) = true
           /\ fs' = os_Remove w (write_file (remove_file fsk tmp) path
                                            (data body)) tmp
           /\ forall q, q <> tmp -> fsk q = fs q).
Proof.
  intros tmp. unfold ensureInitramfsCached.
  destruct (os_Stat w fs path) eqn:Hstat;
    [left; repeat split; reflexivity | |].
  all: destruct (mkdir_fault w (filepath_Dir path));
    [right; left; repeat split; discriminate|].
  all: unfold os_CreateTemp; destruct (createtemp_fault w);
    [right; left; repeat split; discriminate|].
  all: fold tmp; destruct (fs tmp) eqn:Htmp;
    [right; left; repeat split; discriminate|].
  all: assert (H1 : forall q, q <> tmp -> write_file fs tmp [] q = fs q)
    by (intros q Hq; apply write_file_other; exact Hq).
  all: destruct (newrequest_fault w);
    [right; right; left; split; [discriminate|]; split; [reflexivity|];
     eexists; split; [reflexivity | exact H1]|].
  all: destruct (http_Do w url) as [e0|[status body]] eqn:Hdo;
    [right; right; left; split; [discriminate|]; split; [reflexivity|];
     eexists; split; [reflexivity | exact H1]|].
  all: destruct (status =? 200) eqn:Hst; cbn [negb];
    [|right; right; left; split; [discriminate|]; split; [reflexivity|];
      eexists; split; [reflexivity | exact H1]].
  all: apply Z.eqb_eq in Hst; subst status.
  all: destruct (io_Copy_file w body) as [written cerr] eqn:Hcopy.
  all: assert (H2 : forall q, q <> tmp ->
                write_file (write_file fs tmp []) tmp written q = fs q)
    by (intros q Hq; rewrite !write_file_other by exact Hq; reflexivity).
  all: destruct cerr;
    [right; right; left; split; [discriminate|]; split; [reflexivity|];
     eexists; split; [reflexivity | exact H2]|].
  all: destruct (sync_fault w);
    [right; right; left; split; [discriminate|]; split; [reflexivity|];
     eexists; split; [reflexivity | exact H2]|].
  all: destruct (close_fault w);
    [right; right; left; split; [discriminate|]; split; [reflexivity|];
     eexists; split; [reflexivity | exact H2]|].
  all: unfold os_Rename; destruct (rename_fault w);
    [right; right; left; split; [discriminate|]; split; [reflexivity|];
     eexists; split; [reflexivity | exact H2]|].
  all: rewrite write_file_same.
  all: destruct (io_Copy_file_finished _ _ _ Hcopy) as [-> Heof].
  all: right; right; right.
  all: split; [reflexivity|]; split; [reflexivity|]; split; [reflexivity|].
  all: split; [discriminate|].
  all: exists body; eexists; split; [reflexivity|]; split; [exact Heof|].
  all: split; [reflexivity | exact H2].
Qed.

End DownloadFacts.

Section DownloadTheorems.
Context {O : OSLib}.

(** X19: A failed [ensureInitramfsCached] leaves nothing under the final name:
    whatever step fails, every file other than the temporary one, the final
    path included, is as it was before the call. *)
Theorem ensureInitramfsCached_failure_atomic (w : world) (fs : files)
  (path url : string) (e : error) :
  temp_path w path <> path ->
  fst (fst (ensureInitramfsCached w fs path url)) = Some e ->
  snd (fst (ensureInitramfsCached w fs path url)) path = fs path
  /\ forall q, q <> temp_path w path ->
       snd (fst (ensureInitramfsCached w fs path url)) q = fs q.
Proof.
  intros Hne Herr.
  pose proof (ensureInitramfsCached_cases w fs path url) as Hc.
  cbv zeta in Hc.
  destruct (ensureInitramfsCached w fs path url) as [[err fs'] urls].
  cbn [fst snd] in *. subst err.
  assert (Hall : forall q, q <> temp_path w path -> fs' q = fs q).
  { destruct Hc as [(H & _)|[(_ & -> & _)|[(_ & _ & fsk & -> & Hk)|(H & _)]]];
      try discriminate.
    - reflexivity.
    - intros q Hq. rewrite os_Remove_other by exact Hq. exact (Hk q Hq). }
  split; [apply Hall; congruence | exact Hall].
Qed.

(** X20: No temporary file is left behind: when removing works and no file had
    the temporary name before, none has it afterwards, whether the call
    succeeded or failed. *)
Theorem ensureInitramfsCached_no_temp_left (w : world) (fs : files)
  (path url : string) :
  remove_fault w = None ->
  fs (temp_path w path) = None ->
  snd (fst (ensureInitramfsCached w fs path url)) (temp_path w path) = None.
Proof.
  intros Hrm Hnone.
  pose proof (ensureInitramfsCached_cases w fs path url) as Hc.
  cbv zeta in Hc.
  destruct (ensureInitramfsCached w fs path url) as [[err fs'] urls].
  cbn [fst snd].
  destruct Hc as [(_ & -> & _)|[(_ & -> & _)|
                  [(_ & _ & fsk & -> & _)|(_ & _ & _ & _ & body & fsk & _ & _ & -> & _)]]];
    try exact Hnone;
    unfold os_Remove; rewrite Hrm; apply remove_file_same.
Qed.

(** X21: [ensureInitramfsCached] returns nil in two cases only: the artifact was
    there, and then nothing is requested and no file changes; or the server
    answered 200, the body was read to a clean end, and the final path now
    holds exactly the body, one request was made, and no other file but the
    temporary one changed. *)
Theorem ensureInitramfsCached_success (w : world) (fs : files)
  (path url : string) :
  temp_path w path <> path ->
  fst (fst (ensureInitramfsCached w fs path url)) = None ->
  (fs path <> None
   /\ ensureInitramfsCached w fs path url = (None, fs, []))
  \/ (exists body,
        http_Do w url = inr (200, body)
        /\ is_EOF (end_err body) = true
        /\ snd (fst (ensureInitramfsCached w fs path url)) path
           = Some (data body)
        /\ snd (ensureInitramfsCached w fs path url) = [url]
        /\ forall q, q <> path -> q <> temp_path w path ->
             snd (fst (ensureInitramfsCached w fs path url)) q = fs q).
Proof.
  intros Hne Hok.
  pose proof (ensureInitramfsCached_cases w fs path url) as Hc.
  cbv zeta in Hc.
  destruct (ensureInitramfsCached w fs path url) as [[err fs'] urls].
  cbn [fst snd] in *. subst err.
  destruct Hc as [(_ & -> & -> & Hstat)|[(H & _)|[(H & _)|
                  (_ & _ & -> & _ & body & fsk & Hdo & Heof & -> & Hk)]]];
    try (contradiction H; reflexivity).
  - left. split; [|reflexivity]. unfold os_Stat in Hstat.
    destruct (stat_fault w); [discriminate|].
    destruct (fs path); [discriminate | discriminate].
  - right. exists body. split; [exact Hdo|]. split; [exact Heof|].
    split; [|split; [reflexivity|]].
    + rewrite os_Remove_other by congruence. apply write_file_same.
    + intros q Hq Hqt. rewrite os_Remove_other by exact Hqt.
      rewrite write_file_other by exact Hq.
      rewrite remove_file_other by exact Hqt. exact (Hk q Hqt).
Qed.

(** X22: After a call that returned nil the artifact is cached: a later call, in
    any world in which [os.Stat] works, requests nothing, changes nothing
    and returns nil. *)
Theorem ensureInitramfsCached_twice (w w' : world) (fs : files)
  (path url url' : string) :
  temp_path w path <> path ->
  fst (fst (ensureInitramfsCached w fs path url)) = None ->
  stat_fault w' = None ->
  ensureInitramfsCached w' (snd (fst (ensureInitramfsCached w fs path url)))
    path url'
  = (None, snd (fst (ensureInitramfsCached w fs path url)), []).
Proof.
  intros Hne Hok Hstat.
  assert (Hthere : snd (fst (ensureInitramfsCached w fs path url)) path
                   <> None).
  { pose proof (ensureInitramfsCached_cases w fs path url) as Hc.
    cbv zeta in Hc.
    destruct (ensureInitramfsCached w fs path url) as [[err fs'] urls].
    cbn [fst snd] in *. subst err.
    destruct Hc as [(_ & -> & _ & Hs)|[(H & _)|[(H & _)|
                    (_ & _ & _ & _ & body & fsk & _ & _ & -> & _)]]];
      try (contradiction H; reflexivity).
    - unfold os_Stat in Hs. destruct (stat_fault w); [discriminate|].
      destruct (fs path); discriminate.
    - rewrite os_Remove_other by congruence. rewrite write_file_same.
      discriminate. }
  unfold ensureInitramfsCached at 1. unfold os_Stat. rewrite Hstat.
  destruct (snd (fst (ensureInitramfsCached w fs path url)) path);
    [reflexivity | contradiction Hthere; reflexivity].
Qed.

End DownloadTheorems.

Section LegacyDownloadFacts.
Context {O : OSLib}.

(** X23: The older [run] writes the download straight to its final path: when
    the file could be created and the download then fails, what was written
    so far stays under the final name, and the next run, finding a file
    there, takes it for the cached artifact and requests nothing. *)
Theorem Legacy_download_failure_poisons (w : world) (fs : files)
  (filePath url : string) (e : error) :
  os_Stat w fs filePath = StatNotExist ->
  create_fault w = None ->
  fst (fst (Legacy_download w fs filePath url)) = Some e ->
  snd (fst (Legacy_download w fs filePath url)) filePath <> None
  /\ forall w' url',
       stat_fault w' = None ->
       Legacy_download w' (snd (fst (Legacy_download w fs filePath url)))
         filePath url'
       = (None, snd (fst (Legacy_download w fs filePath url)), []).
Proof.
  intros Hstat Hcreate Herr.
  assert (Hthere :
            snd (fst (Legacy_download w fs filePath url)) filePath <> None).
  { unfold Legacy_download. rewrite Hstat, Hcreate.
    destruct (newrequest_fault w);
      [cbn [fst snd]; rewrite write_file_same; discriminate|].
    destruct (http_Do w url) as [e0|[status body]];
      [cbn [fst snd]; rewrite write_file_same; discriminate|].
    destruct (negb (status =? 200));
      [cbn [fst snd]; rewrite write_file_same; discriminate|].
    destruct (io_Copy_file w body) as [written cerr].
    destruct cerr; cbn [fst snd]; rewrite write_file_same; discriminate. }
  split; [exact Hthere|].
  intros w' url' Hs. unfold Legacy_download at 1. unfold os_Stat. rewrite Hs.
  destruct (snd (fst (Legacy_download w fs filePath url)) filePath);
    [reflexivity | contradiction Hthere; reflexivity].
Qed.

End LegacyDownloadFacts.

(** ** Names *)

Lemma string_app_inv_head (a s1 s2 : string) :
  (a ++ s1 = a ++ s2)%string -> s1 = s2.
Proof.
  induction a as [|ch a IH]; cbn; [tauto|].
  intros H. injection H as H. exact (IH H).
Qed.

Lemma string_app_inv_tail (b s1 s2 : string) :
  (s1 ++ b = s2 ++ b)%string -> s1 = s2.
Proof.
  revert s2. induction s1 as [|c1 s1 IH]; intros [|c2 s2] H.
  - reflexivity.
  - exfalso. apply (f_equal String.length) in H.
    cbn in H. rewrite string_length_append in H. lia.
  - exfalso. apply (f_equal String.length) in H.
    cbn in H. rewrite string_length_append in H. lia.
  - cbn in H. injection H as -> H. rewrite (IH _ H). reflexivity.
Qed.

(** X24: Two configurations with the same base URL and version but different
    schematic identifiers have different download URLs: one identifier's
    artifact is never requested for another's. *)
Theorem initramfsURL_separates_schematics (c1 c2 : config) :
  BaseURL c1 = BaseURL c2 ->
  TalosVersion c1 = TalosVersion c2 ->
  SchematicID c1 <> SchematicID c2 ->
  String.eqb (initramfsURL c1) (initramfsURL c2) = false.
Proof.
  intros Hb Hv Hne. apply String.eqb_neq. intros H. apply Hne.
  unfold initramfsURL in H. rewrite Hb, Hv in H.
  apply string_app_inv_head in H. apply string_app_inv_head in H.
  change (SchematicID c1 ++ "/" ++ TalosVersion c2 ++ "/initramfs-amd64.xz")%string
    with (SchematicID c1 ++ ("/" ++ TalosVersion c2 ++ "/initramfs-amd64.xz"))%string in H.
  exact (string_app_inv_tail _ _ _ H).
Qed.

(** * The newer [run] *)

Lemma index_in_range {A : Type} (l : list A) (k : nat) :
  (k < length l)%nat -> exists a, index l (Z.of_nat k) = Some a.
Proof.
  intros H. unfold index.
  destruct ((Z.of_nat k <? 0) || (Z.of_nat (length l) <=? Z.of_nat k)) eqn:Hb.
  - apply orb_prop in Hb as [Hb|Hb];
      [apply Z.ltb_lt in Hb | apply Z.leb_le in Hb]; lia.
  - rewrite Nat2Z.id. destruct (nth_error l k) eqn:Hn; [eexists; reflexivity|].
    apply nth_error_None in Hn. lia.
Qed.

Section RunFacts.
Context {L : Libs} {O : OSLib}.

(** X25: [buildConfig] panics exactly when the argument list is empty: the
    usage message indexes [os.Args[0]].  With a program name in the list it
    returns a configuration or an error. *)
Theorem buildConfig_panics_iff (w : world) :
  buildConfig w = Panic <-> Args w = [].
Proof.
  split.
  - unfold buildConfig.
    destruct (length (Args w) <? 2)%nat eqn:Hlen.
    + destruct (Args w) as [|prog rest]; [reflexivity|].
      destruct (index_in_range (prog :: rest) 0) as [a Ha]; [cbn; lia|].
      change (Z.of_nat 0) with 0 in Ha. rewrite Ha. discriminate.
    + apply Nat.ltb_ge in Hlen.
      destruct (index_in_range (Args w) 1) as [a Ha]; [lia|].
      change (Z.of_nat 1) with 1 in Ha. rewrite Ha.
      destruct (UserHomeDir w); discriminate.
  - intros H. unfold buildConfig. rewrite H. reflexivity.
Qed.

(** Called without a schematic identifier, [run] fails with the usage
    message naming the program, before it looks at the home directory, the
    files or the network. *)
Theorem run_usage (w : world) (fs : files) (fuel : nat) (prog : string) :
  Args w = [prog] ->
  run w fs fuel
  = Some (Err (ErrLib ("usage: " ++ prog ++ " <schematic-id>")), fs, [], []).
Proof.
  intros H. unfold run, buildConfig. rewrite H. reflexivity.
Qed.

(** X26: With the artifact in the cache, [run] requests nothing and changes no
    file, and its result and log are those of [extractRawSchematic] on the
    cached bytes, followed by the line with the text when there is one. *)
Theorem run_cached (w : world) (fs : files) (fuel : nat) (cfg : config)
  (content : list byte) :
  buildConfig w = Ok cfg ->
  mkdir_fault w (CacheDir cfg) = None ->
  stat_fault w = None ->
  open_fault w = None ->
  fs (cacheFilePath cfg) = Some content ->
  run w fs fuel
  = match extractRawSchematic fuel (mkReader content (read_fault w)) with
    | None => None
    | Some (Ok raw, t) => Some (Ok raw, fs, [], t ++ [LogRaw raw])
    | Some (res, t) => Some (res, fs, [], t)
    end.
Proof.
  intros Hcfg Hmk Hstat Hopen Hfile.
  unfold run. rewrite Hcfg, Hmk.
  unfold ensureInitramfsCached, os_Stat. rewrite Hstat, Hfile.
  unfold os_Open. rewrite Hopen, Hfile. reflexivity.
Qed.

End RunFacts.

(** * The statements on sample worlds *)

#[local] Existing Instance DemoOS.oslib.

Lemma ensureInitramfsCached_failure_atomic_witness :
  let w := DemoOS.quiet ["prog"; "abc"]%string DemoOS.refuses in
  snd (fst (ensureInitramfsCached w DemoOS.no_files DemoOS.cache_path "u"))
      DemoOS.cache_path
  = DemoOS.no_files DemoOS.cache_path
  /\ forall q, q <> temp_path w DemoOS.cache_path ->
       snd (fst (ensureInitramfsCached w DemoOS.no_files DemoOS.cache_path "u")) q
       = DemoOS.no_files q.
Proof.
  intros w.
  apply (ensureInitramfsCached_failure_atomic w DemoOS.no_files
           DemoOS.cache_path "u"
           (ErrLib "download: dial tcp: connection refused")).
  - vm_compute. discriminate.
  - vm_compute. reflexivity.
Defined.

Lemma ensureInitramfsCached_no_temp_left_witness :
  let w := DemoOS.quiet ["prog"; "abc"]%string (DemoOS.serves eight_bytes) in
  snd (fst (ensureInitramfsCached w DemoOS.no_files DemoOS.cache_path "u"))
      (temp_path w DemoOS.cache_path)
  = None.
Proof.
  intros w.
  apply (ensureInitramfsCached_no_temp_left w DemoOS.no_files
           DemoOS.cache_path "u"); reflexivity.
Defined.

Lemma ensureInitramfsCached_success_witness :
  let w := DemoOS.quiet ["prog"; "abc"]%string (DemoOS.serves eight_bytes) in
  (DemoOS.no_files DemoOS.cache_path <> None
   /\ ensureInitramfsCached w DemoOS.no_files DemoOS.cache_path "u"
      = (None, DemoOS.no_files, []))
  \/ (exists body,
        http_Do w "u" = inr (200, body)
        /\ is_EOF (end_err body) = true
        /\ snd (fst (ensureInitramfsCached w DemoOS.no_files
                       DemoOS.cache_path "u")) DemoOS.cache_path
           = Some (data body)
        /\ snd (ensureInitramfsCached w DemoOS.no_files DemoOS.cache_path "u")
           = ["u"%string]
        /\ forall q, q <> DemoOS.cache_path ->
             q <> temp_path w DemoOS.cache_path ->
             snd (fst (ensureInitramfsCached w DemoOS.no_files
                         DemoOS.cache_path "u")) q
             = DemoOS.no_files q).
Proof.
  intros w.
  apply (ensureInitramfsCached_success w DemoOS.no_files
           DemoOS.cache_path "u").
  - vm_compute. discriminate.
  - vm_compute. reflexivity.
Defined.

Lemma ensureInitramfsCached_twice_witness :
  let w := DemoOS.quiet ["prog"; "abc"]%string (DemoOS.serves eight_bytes) in
  let w' := DemoOS.quiet ["prog"; "abc"]%string DemoOS.refuses in
  ensureInitramfsCached w'
    (snd (fst (ensureInitramfsCached w DemoOS.no_files DemoOS.cache_path "u")))
    DemoOS.cache_path "u"
  = (None,
     snd (fst (ensureInitramfsCached w DemoOS.no_files DemoOS.cache_path "u")),
     []).
Proof.
  intros w w'.
  apply (ensureInitramfsCached_twice w w' DemoOS.no_files
           DemoOS.cache_path "u" "u").
  - vm_compute. discriminate.
  - vm_compute. reflexivity.
  - reflexivity.
Defined.

Lemma Legacy_download_failure_poisons_witness :
  let w := DemoOS.quiet ["prog"; "abc"]%string DemoOS.refuses in
  snd (fst (Legacy_download w DemoOS.no_files DemoOS.cache_path "u"))
      DemoOS.cache_path <> None
  /\ forall w' url',
       stat_fault w' = None ->
       Legacy_download w'
         (snd (fst (Legacy_download w DemoOS.no_files DemoOS.cache_path "u")))
         DemoOS.cache_path url'
       = (None,
          snd (fst (Legacy_download w DemoOS.no_files DemoOS.cache_path "u")),
          []).
Proof.
  intros w.
  apply (Legacy_download_failure_poisons w DemoOS.no_files
           DemoOS.cache_path "u"
           (ErrLib (String.append "failed to download initramfs from "
                      (String.append (strconv_Quote "u")
                         ": dial tcp: connection refused")))).
  - reflexivity.
  - reflexivity.
  - vm_compute. reflexivity.
Defined.

Lemma initramfsURL_separates_schematics_witness :
  String.eqb
    (initramfsURL (mkConfig_ "abc" "v1.10.6" "https://factory.talos.dev" "/c"))
    (initramfsURL (mkConfig_ "abd" "v1.10.6" "https://factory.talos.dev" "/c"))
  = false.
Proof.
  apply (initramfsURL_separates_schematics
           (mkConfig_ "abc" "v1.10.6" "https://factory.talos.dev" "/c")
           (mkConfig_ "abd" "v1.10.6" "https://factory.talos.dev" "/c"));
    [reflexivity | reflexivity | discriminate].
Defined.

Lemma run_usage_witness :
  run (L := Demo.libs) (DemoOS.quiet ["prog"%string] DemoOS.refuses)
      DemoOS.no_files 0
  = Some (Err (ErrLib "usage: prog <schematic-id>"), DemoOS.no_files, [], []).
Proof.
  apply (run_usage (L := Demo.libs)
           (DemoOS.quiet ["prog"%string] DemoOS.refuses) DemoOS.no_files 0
           "prog").
  reflexivity.
Defined.

Lemma run_cached_witness :
  run (L := Demo.libs)
      (DemoOS.quiet ["prog"; "abc"]%string DemoOS.refuses)
      (write_file DemoOS.no_files DemoOS.cache_path Samples.archive) 3
  = match extractRawSchematic (L := Demo.libs) 3
            (mkReader Samples.archive None) with
    | None => None
    | Some (Ok raw, t) =>
        Some (Ok raw,
              write_file DemoOS.no_files DemoOS.cache_path Samples.archive,
              [], t ++ [LogRaw raw])
    | Some (res, t) =>
        Some (res,
              write_file DemoOS.no_files DemoOS.cache_path Samples.archive,
              [], t)
    end.
Proof.
  apply (run_cached (L := Demo.libs)
           (DemoOS.quiet ["prog"; "abc"]%string DemoOS.refuses)
           (write_file DemoOS.no_files DemoOS.cache_path Samples.archive) 3
           (mkConfig_ "abc" defaultTalosVersion defaultFactoryBaseURL
              "/home/u/.talos-schematic-id-to-raw-schematic-cache")
           Samples.archive).
  - reflexivity.
  - reflexivity.
  - reflexivity.
  - reflexivity.
  - vm_compute. reflexivity.
Defined.
